(** * Verification of the review-takedown automation server (server.py)

    A shallow embedding of [server.py]: the sheet reader, the bounded log
    buffer, the 13-step submission protocol, the control endpoints and the
    run loop, followed by the properties of the run engine.

    Python [str] values are modelled as Rocq [string]s holding the UTF-8
    encoding of the text; the config [dict] is a [gmap string string];
    effects (global state, WebSocket fan-out, the browser page, the sheet,
    the clock and the random generator) are threaded through a state and
    exception monad whose external answers come from a [World] of oracles. *)

From Stdlib Require Import String Ascii List ZArith QArith Qround Lia DecimalString.
From stdpp Require Import base option list gmap strings.

Local Open Scope string_scope.
Local Open Scope list_scope.
Local Open Scope nat_scope.
Local Open Scope stdpp_scope.

(** ** Python string operations *)

Module PyStr.

(** The line feed of the literal ["\n"]. *)
Definition nl : string := String (ascii_of_nat 10) EmptyString.

(** [bool(s)] of a [str]: the empty string is the only falsy one. *)
Definition truthy (s : string) : bool := negb (String.eqb s "").

(** [needle in hay]. *)
Fixpoint contains (needle hay : string) : bool :=
  String.prefix needle hay ||
  match hay with
  | EmptyString => false
  | String _ rest => contains needle rest
  end.

(** [sep.join(parts)]. *)
Fixpoint join (sep : string) (parts : list string) : string :=
  match parts with
  | [] => ""
  | [p] => p
  | p :: rest => p +:+ sep +:+ join sep rest
  end.

(** [str(n)] for a non-negative and for an arbitrary [int]. *)
Definition of_nat (n : nat) : string := NilEmpty.string_of_uint (Nat.to_uint n).
Definition of_Z (z : Z) : string := NilZero.string_of_int (Z.to_int z).

Definition bytes (s : string) : list nat := map nat_of_ascii (list_ascii_of_string s).
Definition of_bytes (bs : list nat) : string :=
  string_of_list_ascii (map ascii_of_nat bs).

(** UTF-8 encodings of the code points for which [str.isspace] holds:
    U+0009..U+000D, U+001C..U+0020, U+0085, U+00A0, U+1680,
    U+2000..U+200A, U+2028, U+2029, U+202F, U+205F, U+3000. *)
Definition spaces : list (list nat) :=
  map (fun b => [b]) [9; 10; 11; 12; 13; 28; 29; 30; 31; 32]
  ++ [[194; 133]; [194; 160]; [225; 154; 128]]
  ++ map (fun b => [226; 128; b]) (seq 128 11)
  ++ [[226; 128; 168]; [226; 128; 169]; [226; 128; 175];
      [226; 129; 159]; [227; 128; 128]].

Fixpoint drop_prefix (p bs : list nat) : option (list nat) :=
  match p, bs with
  | [], _ => Some bs
  | _ :: _, [] => None
  | x :: p', y :: bs' => if Nat.eqb x y then drop_prefix p' bs' else None
  end.

Fixpoint drop_one (table : list (list nat)) (bs : list nat) : option (list nat) :=
  match table with
  | [] => None
  | p :: table' =>
      match drop_prefix p bs with
      | Some rest => Some rest
      | None => drop_one table' bs
      end
  end.

Fixpoint lstrip_bytes (table : list (list nat)) (fuel : nat) (bs : list nat) : list nat :=
  match fuel with
  | O => bs
  | S fuel' =>
      match drop_one table bs with
      | Some rest => lstrip_bytes table fuel' rest
      | None => bs
      end
  end.

(** [s.strip()]: leading and trailing whitespace removed.  The trailing
    pass runs on the reversed bytes against the reversed encodings. *)
Definition strip (s : string) : string :=
  let bs := bytes s in
  let front := lstrip_bytes spaces (length bs) bs in
  let back := lstrip_bytes (map (@rev nat) spaces) (length front) (rev front) in
  of_bytes (rev back).

(** [s.upper()] on the ASCII letters (other characters are kept). *)
Definition upper_ascii (c : ascii) : ascii :=
  let n := nat_of_ascii c in
  if (97 <=? n) && (n <=? 122) then ascii_of_nat (n - 32) else c.

Fixpoint upper (s : string) : string :=
  match s with
  | EmptyString => EmptyString
  | String c rest => String (upper_ascii c) (upper rest)
  end.

(** A byte that continues a UTF-8 sequence (10xxxxxx). *)
Definition continuation (c : ascii) : bool :=
  let n := nat_of_ascii c in (128 <=? n) && (n <? 192).

(** [s[:n]]: the first [n] code points. *)
Fixpoint take_chars (n : nat) (s : string) : string :=
  match s with
  | EmptyString => EmptyString
  | String c rest =>
      if continuation c then String c (take_chars n rest)
      else match n with
           | O => EmptyString
           | S n' => String c (take_chars n' rest)
           end
  end.

(** The characters of [s], each as its own string ([for char in text]). *)
Fixpoint chars_aux (cur : string) (s : string) : list string :=
  match s with
  | EmptyString => match cur with EmptyString => [] | _ => [cur] end
  | String c rest =>
      if continuation c then chars_aux (cur +:+ String c EmptyString) rest
      else match cur with
           | EmptyString => chars_aux (String c EmptyString) rest
           | _ => cur :: chars_aux (String c EmptyString) rest
           end
  end.
Definition chars (s : string) : list string := chars_aux "" s.

(** Decimal digits with single underscores between them, as [int()]
    accepts them; [acc] is the value read so far, [prev_digit] tells
    whether the previous character was a digit. *)
Fixpoint digits (acc : Z) (prev_digit : bool) (cs : list nat) : option Z :=
  match cs with
  | [] => if prev_digit then Some acc else None
  | c :: rest =>
      if (48 <=? c) && (c <=? 57)
      then digits (10 * acc + Z.of_nat (c - 48))%Z true rest
      else if Nat.eqb c 95 && prev_digit
           then match rest with
                | d :: _ => if (48 <=? d) && (d <=? 57) then digits acc false rest else None
                | [] => None
                end
           else None
  end.

(** [int(s)] for a [str]: surrounding whitespace is ignored, then an
    optional sign and ASCII decimal digits; [None] stands for the
    [ValueError] Python raises.  (Decimal digits outside ASCII, which
    CPython also accepts, are not covered.) *)
Definition int (s : string) : option Z :=
  match bytes (strip s) with
  | 45 :: rest => Z.opp <$> digits 0 false rest
  | 43 :: rest => digits 0 false rest
  | rest => digits 0 false rest
  end.

End PyStr.

(** ** Data model *)

(** The exceptions that occur: Playwright's timeout, the [ValueError] of
    [int()], the [IndexError] of a list index, FastAPI's [HTTPException]
    and any other [Exception], each with the text [str(e)] gives. *)
Inductive exn : Type :=
| PlaywrightTimeout (text : string)
| ValueError (text : string)
| IndexError (text : string)
| HTTPException (status_code : nat) (detail : string)
| Exception (text : string).

Definition str_exn (e : exn) : string :=
  match e with
  | PlaywrightTimeout t | ValueError t | IndexError t | Exception t => t
  | HTTPException c d => PyStr.of_nat c +:+ ": " +:+ d
  end.

Definition is_PlaywrightTimeout (e : exn) : bool :=
  match e with PlaywrightTimeout _ => true | _ => false end.

(** The outcome of a computation that may raise. *)
Inductive Res (A : Type) : Type :=
| Ok (a : A)
| Raise (e : exn).
Arguments Ok {A} a.
Arguments Raise {A} e.

#[global] Instance Res_ret : MRet Res := fun A a => Ok a.
#[global] Instance Res_bind : MBind Res := fun A B f r =>
  match r with
  | Ok a => f a
  | Raise e => Raise e
  end.

(** One record of the sheet, as the dict built by [get_sheet_data]; the
    key ["reason"] is never set by the reader ([item.get("reason", ...)]). *)
Record Item : Type := {
  row : nat;
  no : string;
  company_name : string;
  store_id : string;
  business_number : string;
  order_number : string;
  order_date : string;
  status : string;
  timestamp : string;
  reason : option string;
}.

Record LogEntry : Type := {
  time : string;
  message : string;
  level : string;
}.

(** The global dict [automation_state]. *)
Record AutomationState : Type := {
  is_running : bool;
  current_item : nat;
  total_items : nat;
  success : nat;
  fail : nat;
  skip : nat;
  logs : list LogEntry;
  should_stop : bool;
}.

Definition initial_automation_state : AutomationState :=
  {| is_running := false; current_item := 0; total_items := 0;
     success := 0; fail := 0; skip := 0; logs := []; should_stop := false |}.

Record RunRequest : Type := {
  spreadsheet_url : string;
  start_row : Z;
  end_row : Z;
}.

(** The data of a broadcast message. *)
Inductive payload : Type :=
| PLog (entry : LogEntry)
| PState (state : AutomationState)
| PProgress (current total : nat) (item : Item)
| PComplete (n_success n_fail n_skip : nat).

Definition WebSocket : Type := nat.

(** What the program does to the outside, in call order; a call is
    recorded when it is made, whatever its outcome. *)
Inductive Event : Type :=
| EvBroadcast (event : string) (data : payload)
| EvSleep (seconds : Q)
| EvReadSheet (url : string)
| EvUpdateCell (url : string) (r c : nat) (value : string)
| EvLaunch (headless : bool)
| EvNewContext
| EvNewPage
| EvClose
| EvGoto (url : string)
| EvWaitVisible (selector : string) (timeout_ms : Z)
| EvClick (selector : string)
| EvFill (selector text : string)
| EvType (selector char : string) (delay_ms : Z)
| EvCount (selector : string).

(** The outside world: every answer the program receives from its
    environment, indexed by the number of answers received before.
    [now_hms] and [now_full] are [datetime.now()] in the formats
    ["%H:%M:%S"] and ["%Y-%m-%d %H:%M:%S"]; [stop_posted] tells whether a
    stop request is served at a suspension point; [open_sheet] stands for
    getting the gspread client, opening the spreadsheet and picking the
    worksheet; [data_values] and [config_values] are [get_all_values()] of
    the data and of the settings sheet (the latter raises also when the
    sheet is missing); [no_display] is the test for a POSIX host without
    [DISPLAY]; the browser calls answer with the exception they raise, if
    any; [uniform] and [randint] are the draws of [random], given their
    bounds; [format_1f] renders a wait as [f"{wait:.1f}"] does (a float is
    taken as the rational it denotes, the rounding of float arithmetic is
    not modelled). *)
Record World : Type := {
  now_hms : nat -> string;
  now_full : nat -> string;
  stop_posted : nat -> bool;
  ws_send_text : nat -> WebSocket -> option exn;
  open_sheet : nat -> string -> option exn;
  data_values : nat -> Res (list (list string));
  config_values : nat -> Res (list (list string));
  update_cell : nat -> nat -> nat -> string -> option exn;
  no_display : bool;
  launch : nat -> option exn;
  new_context : nat -> option exn;
  new_page : nat -> option exn;
  close : nat -> option exn;
  goto : nat -> string -> option exn;
  wait_for_visible : nat -> string -> option exn;
  click : nat -> string -> option exn;
  fill : nat -> string -> option exn;
  type_char : nat -> string -> option exn;
  locator_count : nat -> string -> Res nat;
  uniform : nat -> Q -> Q -> Q;
  randint : nat -> Z -> Z -> Z;
  format_1f : Q -> string;
}.

(** The process: the two globals, the scheduled run tasks, the world and
    how many answers it gave. *)
Record St : Type := {
  automation_state : AutomationState;
  connected_clients : list WebSocket;
  tasks : list RunRequest;
  world : World;
  clock : nat;
}.

(** ** The monad: state, exceptions and the events emitted *)

Record Out (A : Type) : Type := {
  res : Res A;
  final : St;
  events : list Event;
}.
Arguments res {A} o.
Arguments final {A} o.
Arguments events {A} o.

Definition M (A : Type) : Type := St -> Out A.

#[global] Instance M_ret : MRet M := fun A a st =>
  {| res := Ok a; final := st; events := [] |}.
#[global] Instance M_bind : MBind M := fun A B f m st =>
  let o := m st in
  match res o with
  | Ok a =>
      let o' := f a (final o) in
      {| res := res o'; final := final o'; events := (events o ++ events o')%list |}
  | Raise e => {| res := Raise e; final := final o; events := events o |}
  end.

Definition raise {A} (e : exn) : M A := fun st =>
  {| res := Raise e; final := st; events := [] |}.
Definition gets {A} (f : St -> A) : M A := fun st =>
  {| res := Ok (f st); final := st; events := [] |}.
Definition modify (f : St -> St) : M unit := fun st =>
  {| res := Ok tt; final := f st; events := [] |}.
Definition emit (ev : Event) : M unit := fun st =>
  {| res := Ok tt; final := st; events := [ev] |}.
Definition lift {A} (r : Res A) : M A := fun st =>
  {| res := r; final := st; events := [] |}.

(** [try: body / except Exception as e: handler(e)]. *)
Definition try_except {A} (body : M A) (handler : exn -> M A) : M A := fun st =>
  let o := body st in
  match res o with
  | Ok a => o
  | Raise e =>
      let o' := handler e (final o) in
      {| res := res o'; final := final o'; events := (events o ++ events o')%list |}
  end.

(** [try: body / finally: final_block]: the block runs however the body
    ends; the body's outcome stands unless the block itself raises. *)
Definition try_finally {A} (body : M A) (final_block : M unit) : M A := fun st =>
  let o := body st in
  let o' := final_block (final o) in
  {| res := match res o' with
            | Ok _ => res o
            | Raise e => Raise e
            end;
     final := final o';
     events := (events o ++ events o')%list |}.

(** Field updates of the two records. *)
Definition with_is_running (b : bool) (a : AutomationState) : AutomationState :=
  {| is_running := b; current_item := current_item a; total_items := total_items a;
     success := success a; fail := fail a; skip := skip a; logs := logs a;
     should_stop := should_stop a |}.
Definition with_current_item (n : nat) (a : AutomationState) : AutomationState :=
  {| is_running := is_running a; current_item := n; total_items := total_items a;
     success := success a; fail := fail a; skip := skip a; logs := logs a;
     should_stop := should_stop a |}.
Definition with_total_items (n : nat) (a : AutomationState) : AutomationState :=
  {| is_running := is_running a; current_item := current_item a; total_items := n;
     success := success a; fail := fail a; skip := skip a; logs := logs a;
     should_stop := should_stop a |}.
Definition with_success (n : nat) (a : AutomationState) : AutomationState :=
  {| is_running := is_running a; current_item := current_item a; total_items := total_items a;
     success := n; fail := fail a; skip := skip a; logs := logs a;
     should_stop := should_stop a |}.
Definition with_fail (n : nat) (a : AutomationState) : AutomationState :=
  {| is_running := is_running a; current_item := current_item a; total_items := total_items a;
     success := success a; fail := n; skip := skip a; logs := logs a;
     should_stop := should_stop a |}.
Definition with_skip (n : nat) (a : AutomationState) : AutomationState :=
  {| is_running := is_running a; current_item := current_item a; total_items := total_items a;
     success := success a; fail := fail a; skip := n; logs := logs a;
     should_stop := should_stop a |}.
Definition with_logs (l : list LogEntry) (a : AutomationState) : AutomationState :=
  {| is_running := is_running a; current_item := current_item a; total_items := total_items a;
     success := success a; fail := fail a; skip := skip a; logs := l;
     should_stop := should_stop a |}.
Definition with_should_stop (b : bool) (a : AutomationState) : AutomationState :=
  {| is_running := is_running a; current_item := current_item a; total_items := total_items a;
     success := success a; fail := fail a; skip := skip a; logs := logs a;
     should_stop := b |}.

Definition on_state (f : AutomationState -> AutomationState) (st : St) : St :=
  {| automation_state := f (automation_state st); connected_clients := connected_clients st;
     tasks := tasks st; world := world st; clock := clock st |}.
Definition on_clients (f : list WebSocket -> list WebSocket) (st : St) : St :=
  {| automation_state := automation_state st; connected_clients := f (connected_clients st);
     tasks := tasks st; world := world st; clock := clock st |}.
Definition on_tasks (f : list RunRequest -> list RunRequest) (st : St) : St :=
  {| automation_state := automation_state st; connected_clients := connected_clients st;
     tasks := f (tasks st); world := world st; clock := clock st |}.
Definition tick (st : St) : St :=
  {| automation_state := automation_state st; connected_clients := connected_clients st;
     tasks := tasks st; world := world st; clock := S (clock st) |}.

(** Primitive effects. *)
Definition update_state (f : AutomationState -> AutomationState) : M unit :=
  modify (on_state f).
Definition read_state {A} (f : AutomationState -> A) : M A :=
  gets (fun st => f (automation_state st)).
(** The next answer of the world. *)
Definition ask {A} (f : World -> nat -> A) : M A :=
  a ← gets (fun st => f (world st) (clock st)); modify tick;; mret a.
Definition raise_if (r : option exn) : M unit :=
  match r with
  | None => mret tt
  | Some e => raise e
  end.

(** ** Log buffer and fan-out *)

(** [l[-n:]]. *)
Definition last_n {A} (n : nat) (l : list A) : list A := skipn (length l - n) l.

(** The buffer update of [add_log]: append, then keep the last 200. *)
Definition log_append (buf : list LogEntry) (e : LogEntry) : list LogEntry :=
  let buf' := (buf ++ [e])%list in
  if 200 <? length buf' then last_n 200 buf' else buf'.

(** [list.remove(x)] for an [x] that occurs: the first occurrence goes. *)
Fixpoint remove_first (x : WebSocket) (l : list WebSocket) : list WebSocket :=
  match l with
  | [] => []
  | y :: l' => if Nat.eqb x y then l' else y :: remove_first x l'
  end.

(** The first loop of [broadcast]: send to each client and collect the
    ones whose send raised; [pause] is what happens while the send is
    awaited. *)
Fixpoint send_all (pause : M unit) (clients : list WebSocket) : M (list WebSocket) :=
  match clients with
  | [] => mret []
  | ws :: rest =>
      pause;;
      r ← ask (fun w t => ws_send_text w t ws);
      disconnected ← send_all pause rest;
      mret (match r with
            | None => disconnected
            | Some _ => ws :: disconnected
            end)
  end.

Definition broadcast_with (pause : M unit) (event : string) (data : payload) : M unit :=
  emit (EvBroadcast event data);;
  clients ← gets connected_clients;
  disconnected ← send_all pause clients;
  modify (on_clients (fun l => fold_left (fun l ws => remove_first ws l) disconnected l)).

Definition add_log_with (pause : M unit) (msg lvl : string) : M unit :=
  t ← ask now_hms;
  let log_entry := {| time := t; message := msg; level := lvl |} in
  update_state (fun a => with_logs (log_append (logs a) log_entry) a);;
  broadcast_with pause "log" (PLog log_entry).

Record Response : Type := {
  resp_success : bool;
  resp_message : option string;
}.

Definition stop_message : string := "⛔ 중지 요청됨. 현재 건 완료 후 중지합니다.".

(** [POST /api/automation/stop]; the handler runs to its end at once. *)
Definition stop_automation : M Response :=
  update_state (with_should_stop true);;
  add_log_with (mret tt) stop_message "warn";;
  mret {| resp_success := true; resp_message := None |}.

(** A suspension point of the run task ([await]): the event loop may
    serve a stop request before the task resumes.  Stop requests are the
    only requests the environment is taken to make during a run. *)
Definition suspend : M unit :=
  posted ← ask stop_posted;
  if posted : bool then stop_automation;; mret tt else mret tt.

Definition broadcast : string -> payload -> M unit := broadcast_with suspend.
Definition add_log : string -> string -> M unit := add_log_with suspend.

Definition broadcast_state : M unit :=
  a ← read_state (fun a => a); broadcast "state" (PState a).

(** [await asyncio.sleep(seconds)]. *)
Definition sleep (seconds : Q) : M unit :=
  emit (EvSleep seconds);; suspend.

(** An awaited call to the browser that may raise. *)
Definition external (ev : Event) (answer : World -> nat -> option exn) : M unit :=
  emit ev;; suspend;; r ← ask answer; raise_if r.

(** ** Google Sheets access *)

(** [row[k]]: [IndexError] past the end. *)
Definition index (r : list string) (k : nat) : Res string :=
  match r !! k with
  | Some c => Ok c
  | None => Raise (IndexError "list index out of range")
  end.

(** The dict built for the sheet row [cells] with address [i]. *)
Definition make_item (i : nat) (cells : list string) : Res Item :=
  c0 ← index cells 0;
  c1 ← index cells 1;
  c2 ← index cells 2;
  c3 ← index cells 3;
  c4 ← index cells 4;
  c5 ← index cells 5;
  c6 ← (if 6 <? length cells then index cells 6 else Ok "");
  c7 ← (if 7 <? length cells then index cells 7 else Ok "");
  mret {| row := i;
          no := if PyStr.truthy c0 then c0 else PyStr.of_nat (i - 3);
          company_name := PyStr.strip c1;
          store_id := PyStr.strip c2;
          business_number := PyStr.strip c3;
          order_number := PyStr.strip c4;
          order_date := PyStr.strip c5;
          status := PyStr.strip c6;
          timestamp := PyStr.strip c7;
          reason := None |}.

(** The loop [for i, row in enumerate(records[3:], start=4)]: it breaks
    at the first row whose column C is empty. *)
Fixpoint read_items (i : nat) (rows : list (list string)) : Res (list Item) :=
  match rows with
  | [] => Ok []
  | cells :: rest =>
      c2 ← index cells 2;
      if negb (PyStr.truthy c2) then Ok []
      else it ← make_item i cells;
           its ← read_items (S i) rest;
           mret (it :: its)
  end.

(** The loop over the rows of the settings sheet.  It runs inside
    [try: ... except Exception: pass], so an [IndexError] ends it and
    keeps the entries read so far. *)
Fixpoint read_config (rows : list (list string)) (config : gmap string string)
  : gmap string string :=
  match rows with
  | [] => config
  | cells :: rest =>
      match cells !! 0 with
      | None => config
      | Some k =>
          if PyStr.truthy k then
            match cells !! 1 with
            | None => config
            | Some v =>
                if PyStr.truthy v
                then read_config rest (<[PyStr.strip k := PyStr.strip v]> config)
                else read_config rest config
            end
          else read_config rest config
      end
  end.

(** [get_sheet_data]: [open_sheet] stands for getting the client, opening
    the spreadsheet and picking the worksheet. *)
Definition get_sheet_data (url : string) : M (list Item * gmap string string) :=
  emit (EvReadSheet url);;
  r ← ask (fun w t => open_sheet w t url); raise_if r;;
  records ← ask data_values; records ← lift records;
  if length records <? 4 then mret ([], ∅)
  else
    items ← lift (read_items 4 (skipn 3 records));
    config_data ← ask config_values;
    let config := match config_data with
                  | Ok rows => read_config (skipn 3 rows) ∅
                  | Raise _ => ∅
                  end in
    mret (items, config).

(** [update_sheet_result]: the two cells G and H of the row. *)
Definition update_sheet_result (url : string) (r : nat) (stat ts : string) : M unit :=
  o ← ask (fun w t => open_sheet w t url); raise_if o;;
  emit (EvUpdateCell url r 7 stat);;
  o ← ask (fun w t => update_cell w t r 7 stat); raise_if o;;
  emit (EvUpdateCell url r 8 ts);;
  o ← ask (fun w t => update_cell w t r 8 ts); raise_if o.

(** ** Configuration *)

(** [config.get(key, default)] for a text setting. *)
Definition config_str (config : gmap string string) (key dflt : string) : string :=
  default dflt (config !! key).

(** [int(config.get(key, default))]. *)
Definition config_int (config : gmap string string) (key : string) (dflt : Z) : Res Z :=
  match config !! key with
  | None => Ok dflt
  | Some v =>
      match PyStr.int v with
      | Some n => Ok n
      | None => Raise (ValueError ("invalid literal for int() with base 10: '" +:+ v +:+ "'"))
      end
  end.

Definition key_timeout : string := "요소 탐지 타임아웃(초)".
Definition key_chatbot_url : string := "챗봇 URL".
Definition key_reason_category : string := "사유 카테고리".
Definition key_delete_comment : string := "댓글 삭제 동의".
Definition key_default_reason : string := "기본 사유".
Definition key_delay : string := "건당 대기시간(초)".
Definition key_max_retry : string := "최대 재시도 횟수".
Definition key_visible : string := "브라우저 표시".

Definition in_list (s : string) (l : list string) : bool :=
  existsb (String.eqb s) l.

(** The [headless] flag computed by [run_automation]. *)
Definition headless_of (config : gmap string string) (no_disp : bool) : bool :=
  let headless_val := PyStr.upper (config_str config key_visible "FALSE") in
  let headless := negb (in_list headless_val ["TRUE"; "1"; "예"; "Y"]) in
  if no_disp then true else headless.

(** ** The submission protocol *)

Definition button_selector (text : string) : string :=
  "button:has-text('" +:+ text +:+ "'), " +:+
  "div[role='button']:has-text('" +:+ text +:+ "'), " +:+
  "a:has-text('" +:+ text +:+ "'), " +:+
  "span:has-text('" +:+ text +:+ "')".

Definition input_sel : string :=
  "input[placeholder*='메시지'], " +:+
  "textarea[placeholder*='메시지'], " +:+
  "input[placeholder*='입력'], " +:+
  "textarea[placeholder*='입력'], " +:+
  "div[contenteditable='true']".

Definition send_sel : string := "button:has(svg), button[class*='send']".

(** The helper [click_btn]: any exception becomes [False]. *)
Definition click_btn (timeout : Z) (text : string) (wait_after : Q) : M bool :=
  try_except
    (let btn := button_selector text in
     external (EvWaitVisible btn timeout) (fun w t => wait_for_visible w t btn);;
     human ← ask (fun w t => uniform w t (3 # 10) (8 # 10));
     sleep human;;
     external (EvClick btn) (fun w t => click w t btn);;
     sleep wait_after;;
     mret true)
    (fun _ => mret false).

Fixpoint type_chars (cs : list string) : M unit :=
  match cs with
  | [] => mret tt
  | c :: rest =>
      d ← ask (fun w t => randint w t 30 80);
      external (EvType input_sel c d) (fun w t => type_char w t input_sel);;
      type_chars rest
  end.

(** The helper [type_msg]: any exception becomes [False]. *)
Definition type_msg (timeout : Z) (text : string) (wait_after : Q) : M bool :=
  try_except
    (external (EvWaitVisible input_sel timeout) (fun w t => wait_for_visible w t input_sel);;
     external (EvClick input_sel) (fun w t => click w t input_sel);;
     external (EvFill input_sel "") (fun w t => fill w t input_sel);;
     sleep (2 # 10);;
     type_chars (PyStr.chars text);;
     sleep (3 # 10);;
     external (EvClick send_sel) (fun w t => click w t send_sel);;
     sleep wait_after;;
     mret true)
    (fun _ => mret false).

(** [await page.locator(sel).count()]. *)
Definition count (sel : string) : M nat :=
  emit (EvCount sel);; suspend;; r ← ask (fun w t => locator_count w t sel); lift r.

Definition msg_mismatch : string := "❌ 스토어ID/사업자번호 불일치".
Definition msg_done : string := "✅ 접수 완료".

(** [if not await step: return False, msg], then the rest. *)
Definition or_fail (step : M bool) (msg : string) (rest : M (bool * string))
  : M (bool * string) :=
  ok ← step; if ok : bool then rest else mret (false, msg).

(** Steps 2 to 13 of the [try] block of [process_single_item]. *)
Definition after_navigation (item : Item) (config : gmap string string) (timeout : Z)
  : M (bool * string) :=
  let reason_category := config_str config key_reason_category "기타" in
  let delete_comment := config_str config key_delete_comment "네" in
  let click := click_btn timeout in
  let type := type_msg timeout in
  add_log "  [2/13] '리뷰 블라인드/게시중단 요청' 선택" "info";;
  or_fail (ok ← click "리뷰 블라인드/게시중단 요청" 2%Q;
           if ok : bool then mret true else click "리뷰 블라인드" 2%Q)
    "❌ 메인 메뉴 버튼 탐지 실패" (
  add_log "  [3/13] 신청유형 선택" "info";;
  let type_text := "블라인드&게시중단 중복 신청" in
  or_fail (click type_text 2%Q) ("❌ 신청유형 '" +:+ type_text +:+ "' 버튼 탐지 실패") (
  add_log "  [4/13] '본인 신청' 선택" "info";;
  or_fail (click "본인 신청" 2%Q) "❌ '본인 신청' 버튼 탐지 실패" (
  add_log "  [5/13] '간편하게 접수하기' 선택" "info";;
  or_fail (click "간편하게 접수하기" 2%Q) "❌ '간편하게 접수하기' 버튼 탐지 실패" (
  add_log "  [6/13] '계속 신청하기' 선택" "info";;
  or_fail (click "계속 신청하기" 3%Q) "❌ '계속 신청하기' 버튼 탐지 실패" (
  add_log ("  [7/13] 스토어 ID 입력: " +:+ store_id item) "info";;
  or_fail (type (store_id item) 2%Q) "❌ 스토어 ID 입력 실패" (
  add_log ("  [8/13] 사업자번호 입력: " +:+ business_number item) "info";;
  or_fail (type (business_number item) 2%Q) "❌ 사업자번호 입력 실패" (
  add_log "  [9/13] 인증 확인" "info";;
  ok ← click "일치하며 이어서 진행하기" 2%Q;
  if negb ok then
    mismatch ← count "text=일치하지 않습니다";
    if 0 <? mismatch then mret (false, msg_mismatch)
    else mret (false, "❌ 인증 확인 버튼 탐지 실패")
  else
  let order_info :=
    if PyStr.truthy (order_date item)
    then order_number item +:+ " / " +:+ order_date item
    else order_number item in
  add_log ("  [10/13] 주문정보 입력: " +:+ order_info) "info";;
  or_fail (type order_info 2%Q) "❌ 주문정보 입력 실패" (
  add_log ("  [11/13] 사유 카테고리: '" +:+ reason_category +:+ "'") "info";;
  or_fail (click reason_category 2%Q)
    ("❌ 사유 카테고리 '" +:+ reason_category +:+ "' 탐지 실패") (
  let default_reason :=
    config_str config key_default_reason "리뷰 블라인드/게시중단 요청합니다." in
  add_log "  [12/13] 사유 작성 중..." "info";;
  or_fail (type (default default_reason (reason item)) 2%Q) "❌ 사유 입력 실패" (
  add_log "  [13/13] 최종 접수..." "info";;
  click delete_comment 2%Q;;
  sleep 1%Q;;
  ok ← click "동의하고 접수하기" 2%Q;
  accepted ← (if ok : bool then mret true
              else completed ← count "text=접수가 완료";
                   mret (negb (Nat.eqb completed 0)));
  if accepted : bool
  then sleep 2%Q;; mret (true, msg_done)
  else mret (false, "❌ '동의하고 접수하기' 버튼 탐지 실패"))))))))))).

(** The [try] block of [process_single_item]: step 1, the navigation,
    and then the steps on the chat page. *)
Definition submission_steps (item : Item) (config : gmap string string) (timeout : Z)
  : M (bool * string) :=
  let chatbot_url := config_str config key_chatbot_url "https://buly.kr/BpEMAeD" in
  add_log "  [1/13] 챗봇 접속 중..." "info";;
  external (EvGoto chatbot_url) (fun w t => goto w t chatbot_url);;
  sleep 3%Q;;
  after_navigation item config timeout.

(** [process_single_item]: the timeout setting is read before the [try]
    block, so the [ValueError] of [int()] is raised to the caller; what
    the steps raise becomes a failure reason. *)
Definition process_single_item (item : Item) (config : gmap string string)
  : M (bool * string) :=
  seconds ← lift (config_int config key_timeout 10);
  let timeout := (seconds * 1000)%Z in
  try_except (submission_steps item config timeout)
    (fun e =>
       if is_PlaywrightTimeout e then mret (false, "❌ 타임아웃")
       else mret (false, "❌ 오류: " +:+ PyStr.take_chars 80 (str_exn e))).

(** ** Control endpoints *)

(** [POST /api/automation/start]: [asyncio.create_task] schedules the run;
    the task starts when the event loop next gets control. *)
Definition start_automation (req : RunRequest) : M Response :=
  running ← read_state is_running;
  if running : bool then raise (HTTPException 409 "이미 실행 중입니다")
  else
    modify (on_tasks (fun l => (l ++ [req])%list));;
    mret {| resp_success := true; resp_message := Some "자동화가 시작되었습니다" |}.

(** ** The run loop *)

(** [items[start:stop]] with Python's treatment of negative and
    out-of-range bounds. *)
Definition slice_bound (n : nat) (k : Z) : nat :=
  if (k <? 0)%Z then Z.to_nat (Z.max 0 (Z.of_nat n + k))
  else Z.to_nat (Z.min k (Z.of_nat n)).

Definition slice {A} (l : list A) (start stop : Z) : list A :=
  let lo := slice_bound (length l) start in
  let hi := slice_bound (length l) stop in
  firstn (hi - lo) (skipn lo l).

(** The list [missing] of the data check. *)
Definition missing_fields (item : Item) : list string :=
  ((if PyStr.truthy (store_id item) then [] else ["스토어ID"]) ++
   (if PyStr.truthy (business_number item) then [] else ["사업자번호"]) ++
   (if PyStr.truthy (order_number item) then [] else ["주문번호"]))%list.

Definition skip_message (missing : list string) : string :=
  "⏭ 스킵 (누락: " +:+ PyStr.join ", " missing +:+ ")".

(** The retry notice and the wait before every attempt but the first. *)
Definition retry_notice (delay max_retry : Z) (attempt : nat) : M unit :=
  if 1 <? attempt
  then add_log ("  🔁 재시도 " +:+ PyStr.of_nat attempt +:+ "/" +:+
                PyStr.of_Z max_retry +:+ "...") "info";;
       sleep (inject_Z delay)
  else mret tt.

(** The loop [for attempt in range(1, max_retry + 1)] over the attempt
    numbers still to come; it yields [(success, result_msg)]. *)
Fixpoint attempt_loop (item : Item) (config : gmap string string) (delay max_retry : Z)
    (attempts : list nat) (result_msg : string) : M (bool * string) :=
  match attempts with
  | [] => mret (false, result_msg)
  | attempt :: later =>
      retry_notice delay max_retry attempt;;
      r ← process_single_item item config;
      let '(ok, msg) := r in
      if ok : bool then mret (true, msg)
      else
        add_log ("  " +:+ msg) "error";;
        if PyStr.contains "불일치" msg then mret (false, msg)
        else attempt_loop item config delay max_retry later msg
  end.

Definition attempt_numbers (max_retry : Z) : list nat := seq 1 (Z.to_nat max_retry).

(** How an iteration of the record loop ends. *)
Inductive flow : Type := Continue | Break.

(** The skip branch of the data check. *)
Definition record_skip (url : string) (item : Item) (missing : list string) : M unit :=
  let msg := skip_message missing in
  add_log msg "warn";;
  update_state (fun a => with_skip (skip a + 1) a);;
  ts ← ask now_full;
  update_sheet_result url (row item) msg ts;;
  broadcast_state.

(** The attempts, the tally and the write-back of the result. *)
Definition record_attempt (url : string) (config : gmap string string) (delay max_retry : Z)
    (item : Item) : M unit :=
  r ← attempt_loop item config delay max_retry (attempt_numbers max_retry) "";
  let '(ok, result_msg) := r in
  (if ok : bool
   then update_state (fun a => with_success (success a + 1) a);;
        add_log "  ✅ 접수 완료!" "success"
   else update_state (fun a => with_fail (fail a + 1) a);;
        add_log ("  ❌ 최종 실패: " +:+ result_msg) "error");;
  try_except
    (ts ← ask now_full; update_sheet_result url (row item) result_msg ts)
    (fun e => add_log ("  ⚠️ 시트 결과 기록 실패: " +:+ str_exn e) "warn");;
  broadcast_state.

(** The wait between records that ends the loop body. *)
Definition pacing (delay : Z) (total i : nat) : M unit :=
  stop ← read_state should_stop;
  if (Z.of_nat i <? Z.of_nat total - 1)%Z && negb stop
  then jitter ← ask (fun w t => uniform w t 0%Q 2%Q);
       let wait := (inject_Z delay + jitter)%Q in
       text ← gets (fun st => format_1f (world st) wait);
       add_log ("  ⏳ " +:+ text +:+ "초 대기...") "info";;
       sleep wait
  else mret tt.

(** The start of an iteration: the position, the progress broadcast and
    the two log lines about the record. *)
Definition record_announce (total i : nat) (item : Item) : M unit :=
  update_state (with_current_item (i + 1));;
  broadcast "progress" (PProgress (i + 1) total item);;
  add_log (PyStr.nl +:+ "━━ [" +:+ PyStr.of_nat (i + 1) +:+ "/" +:+ PyStr.of_nat total +:+
           "] Row " +:+ PyStr.of_nat (row item) +:+ " ━━") "info";;
  add_log ("  업체명: " +:+ company_name item +:+ ", 스토어ID: " +:+ store_id item +:+
           ", 주문번호: " +:+ order_number item) "info".

(** The body of [for i, item in enumerate(items)]; [total] is
    [len(items)].  The skip branch ends with [continue]. *)
Definition record_body (url : string) (config : gmap string string) (delay max_retry : Z)
    (total i : nat) (item : Item) : M flow :=
  stop ← read_state should_stop;
  if stop : bool then
    add_log "⛔ 사용자에 의해 중지되었습니다." "warn";; mret Break
  else
    record_announce total i item;;
    match missing_fields item with
    | _ :: _ => record_skip url item (missing_fields item);; mret Continue
    | [] =>
        record_attempt url config delay max_retry item;;
        pacing delay total i;;
        mret Continue
    end.

Fixpoint record_loop (url : string) (config : gmap string string) (delay max_retry : Z)
    (total i : nat) (items : list Item) : M unit :=
  match items with
  | [] => mret tt
  | item :: rest =>
      f ← record_body url config delay max_retry total i item;
      match f with
      | Break => mret tt
      | Continue => record_loop url config delay max_retry total (S i) rest
      end
  end.

Fixpoint repeat_string (s : string) (n : nat) : string :=
  match n with
  | O => ""
  | S n' => s +:+ repeat_string s n'
  end.

Definition summary_message (a : AutomationState) : string :=
  "📊 최종 결과: ✅ " +:+ PyStr.of_nat (success a) +:+ "건 성공, " +:+
  "❌ " +:+ PyStr.of_nat (fail a) +:+ "건 실패, " +:+
  "⏭ " +:+ PyStr.of_nat (skip a) +:+ "건 스킵".

(** The [try] block of [run_automation]. *)
Definition run_try (url : string) (start_row end_row : Z) : M unit :=
  data ← get_sheet_data url;
  let '(items, config) := data in
  match items with
  | [] => add_log "⚠️ 처리할 데이터가 없습니다." "warn"
  | _ :: _ =>
      let start_idx := (start_row - 1)%Z in
      let end_idx := if (0 <? end_row)%Z then end_row else Z.of_nat (length items) in
      let items := slice items start_idx end_idx in
      update_state (with_total_items (length items));;
      delay ← lift (config_int config key_delay 3);
      max_retry ← lift (config_int config key_max_retry 3);
      no_disp ← gets (fun st => no_display (world st));
      let headless := headless_of config no_disp in
      add_log ("📊 총 " +:+ PyStr.of_nat (length items) +:+ "건 처리 예정") "info";;
      broadcast_state;;
      external (EvLaunch headless) launch;;
      external EvNewContext new_context;;
      external EvNewPage new_page;;
      record_loop url config delay max_retry (length items) 0 items;;
      external EvClose close
  end.

(** The [except Exception as e] handler. *)
Definition run_except (e : exn) : M unit :=
  add_log ("💥 치명적 오류: " +:+ str_exn e) "error".

(** The [finally] block. *)
Definition run_finally : M unit :=
  update_state (with_is_running false);;
  add_log (repeat_string "━" 40) "info";;
  a ← read_state (fun a => a);
  add_log (summary_message a) "info";;
  broadcast_state;;
  a ← read_state (fun a => a);
  broadcast "complete" (PComplete (success a) (fail a) (skip a)).

Definition reset_for_run (a : AutomationState) : AutomationState :=
  {| is_running := true; should_stop := false; success := 0; fail := 0; skip := 0;
     logs := []; current_item := current_item a; total_items := total_items a |}.

Definition run_automation (url : string) (start_row end_row : Z) : M unit :=
  update_state reset_for_run;;
  add_log "🚀 자동화를 시작합니다..." "info";;
  broadcast_state;;
  try_finally (try_except (run_try url start_row end_row) run_except) run_finally.

(** The event loop starts the oldest scheduled run task. *)
Definition run_scheduled : M unit :=
  pending ← gets tasks;
  match pending with
  | [] => mret tt
  | req :: rest =>
      modify (on_tasks (fun _ => rest));;
      run_automation (spreadsheet_url req) (start_row req) (end_row req)
  end.

(** ** Concrete scenarios *)

(** A world that serves the sheet [data] and the settings [config_rows],
    posts a stop request where [stop_at] says, fails the cell updates of
    the rows in [write_fails], never shows the elements whose selector is
    in [hidden] and otherwise lets every call succeed. *)
Definition scripted_world (data config_rows : list (list string))
    (stop_at : nat -> bool) (write_fails : nat -> bool) (hidden : string -> bool)
    (counts : string -> nat) : World :=
  {| now_hms := fun _ => "12:00:00";
     now_full := fun _ => "2025-03-01 12:00:00";
     stop_posted := stop_at;
     ws_send_text := fun _ _ => None;
     open_sheet := fun _ _ => None;
     data_values := fun _ => Ok data;
     config_values := fun _ => Ok config_rows;
     update_cell := fun _ r _ _ =>
       if write_fails r then Some (Exception "APIError: quota exceeded") else None;
     no_display := true;
     launch := fun _ => None;
     new_context := fun _ => None;
     new_page := fun _ => None;
     close := fun _ => None;
     goto := fun _ _ => None;
     wait_for_visible := fun _ sel =>
       if hidden sel then Some (PlaywrightTimeout "Timeout exceeded.") else None;
     click := fun _ _ => None;
     fill := fun _ _ => None;
     type_char := fun _ _ => None;
     locator_count := fun _ sel => Ok (counts sel);
     uniform := fun _ lo _ => lo;
     randint := fun _ lo _ => lo;
     format_1f := fun q => PyStr.of_Z (Qfloor q) +:+ ".0" |}.

(** The process right after start-up, in the world [w]. *)
Definition boot (w : World) : St :=
  {| automation_state := initial_automation_state; connected_clients := [];
     tasks := []; world := w; clock := 0 |}.

Definition sheet_header : list (list string) :=
  [["title"]; ["note"];
   ["No."; "업체명"; "스토어 ID"; "사업자등록번호"; "주문번호"; "주문일자"; "처리결과"; "처리시간"]].
Definition settings_header : list (list string) :=
  [["title"]; ["note"]; ["설정"; "값"]].

Definition row_ok : list string :=
  ["1"; "가게A"; "123456"; "123-45-67890"; "ORD-2025-0001"; "2025-02-15"; ""; ""].
Definition row_no_business : list string :=
  ["2"; "가게B"; "789012"; ""; "ORD-2025-0002"; "2025-02-16"; ""; ""].
Definition row_blank_store : list string :=
  ["3"; "가게C"; " "; "111-22-33333"; "ORD-2025-0003"; "2025-02-17"; ""; ""].

Definition nowhere : nat -> bool := fun _ => false.
Definition nothing : string -> bool := fun _ => false.
Definition zero : string -> nat := fun _ => 0.

(** The process while a run is active. *)
Definition busy (w : World) : St := on_state (with_is_running true) (boot w).

Definition sample_url : string := "https://docs.google.com/spreadsheets/d/abc".
Definition sample_request : RunRequest :=
  {| spreadsheet_url := sample_url; start_row := 1; end_row := 0 |}.

(** The records that the reader makes of [row_ok] in row 4 and of
    [row_no_business] in row 5. *)
Definition sample_item : Item :=
  {| row := 4; no := "1"; company_name := "가게A"; store_id := "123456";
     business_number := "123-45-67890"; order_number := "ORD-2025-0001";
     order_date := "2025-02-15"; status := ""; timestamp := ""; reason := None |}.

(** One complete record, no settings, nothing fails. *)
Definition quiet_world : World :=
  scripted_world (sheet_header ++ [row_ok]) settings_header nowhere nowhere nothing zero.

(** One row whose store-ID cell holds a single space. *)
Definition blank_store_world : World :=
  scripted_world (sheet_header ++ [row_blank_store]) settings_header nowhere nowhere nothing zero.


(** The same two records in either order, with the cell updates of
    row 4 failing. *)
Definition skip_write_fails_world : World :=
  scripted_world (sheet_header ++ [row_no_business; row_ok]) settings_header
    nowhere (Nat.eqb 4) nothing zero.
Definition attempt_write_fails_world : World :=
  scripted_world (sheet_header ++ [row_ok; row_no_business]) settings_header
    nowhere (Nat.eqb 4) nothing zero.




(** ** Observations on events and states *)

Definition is_complete (ev : Event) : bool :=
  match ev with EvBroadcast _ (PComplete _ _ _) => true | _ => false end.
Definition is_progress (ev : Event) : bool :=
  match ev with EvBroadcast _ (PProgress _ _ _) => true | _ => false end.
Definition is_sleep (ev : Event) : bool :=
  match ev with EvSleep _ => true | _ => false end.
Definition is_goto (ev : Event) : bool :=
  match ev with EvGoto _ => true | _ => false end.
(** A call to the browser page. *)
Definition is_page_event (ev : Event) : bool :=
  match ev with
  | EvGoto _ | EvWaitVisible _ _ | EvClick _ | EvFill _ _ | EvType _ _ _ | EvCount _ => true
  | _ => false
  end.
(** The broadcast of an error-level log line whose text holds 불일치. *)
Definition is_mismatch_log (ev : Event) : bool :=
  match ev with
  | EvBroadcast _ (PLog e) =>
      String.eqb (level e) "error" && PyStr.contains "불일치" (message e)
  | _ => false
  end.

(** The three tallies. *)
Definition tallies (st : St) : nat * nat * nat :=
  let a := automation_state st in (success a, fail a, skip a).
Definition tally_sum (st : St) : nat :=
  let a := automation_state st in success a + fail a + skip a.
(** The records started: one progress broadcast each. *)
Definition started (evs : list Event) : nat := length (List.filter is_progress evs).
(** The attempts made: one navigation each. *)
Definition attempts_made (evs : list Event) : nat := length (List.filter is_goto evs).


Definition running (st : St) : bool := is_running (automation_state st).


(** The warn and error lines of the log buffer, oldest first. *)
Definition warn_and_error_lines (st : St) : list (string * string) :=
  map (fun e => (level e, message e))
    (List.filter (fun e => String.eqb (level e) "warn" || String.eqb (level e) "error")
       (logs (automation_state st))).

(** What holds of the records [items] that the reader returns in the
    state [st]: they carry the row addresses 4, 5, ...; record [k] comes
    from sheet row [3 + k] (counted from 0), whose store-ID cell is not
    empty and, with the surrounding whitespace removed, is the record's
    store identifier, so that the data check names the store identifier
    as missing exactly when that cell holds whitespace only; and the row
    after the last record, if there is one, has an empty store-ID cell. *)
Definition reader_contract (st : St) (items : list Item) : Prop :=
  exists records,
    data_values (world st) (S (clock st)) = Ok records /\
    map row items = seq 4 (length items) /\
    (forall k it, items !! k = Some it ->
       exists cells c2,
         records !! (3 + k) = Some cells /\ cells !! 2 = Some c2 /\ c2 <> "" /\
         store_id it = PyStr.strip c2 /\
         (In "스토어ID" (missing_fields it) <-> PyStr.strip c2 = "")) /\
    (forall cells, records !! (3 + length items) = Some cells -> cells !! 2 = Some "").


(** ** Frames: what a piece of code leaves alone *)

(** A relation between the state before, the events emitted and the state
    after that holds of doing nothing and composes along sequencing. *)
Class Frame (R : St -> list Event -> St -> Prop) : Prop := {
  frame_nil : forall st, R st [] st;
  frame_app : forall s1 e1 s2 e2 s3, R s1 e1 s2 -> R s2 e2 s3 -> R s1 (e1 ++ e2) s3;
}.

Definition respects (R : St -> list Event -> St -> Prop) {A} (m : M A) : Prop :=
  forall st, R st (events (m st)) (final (m st)).

(** The observation [obs] of the state is left as it was. *)
Definition kept {X} (obs : St -> X) : St -> list Event -> St -> Prop :=
  fun st _ st' => obs st' = obs st.

(** No event of the kind [P] is emitted. *)
Definition without (P : Event -> bool) : St -> list Event -> St -> Prop :=
  fun _ evs _ => List.filter P evs = [].

Definition both (R1 R2 : St -> list Event -> St -> Prop) : St -> list Event -> St -> Prop :=
  fun st evs st' => R1 st evs st' /\ R2 st evs st'.

(** What logging, the clock and a stop request change does not matter
    to [R]. *)
Class Ambient (R : St -> list Event -> St -> Prop) : Prop := {
  ambient_tick : forall st, R st [] (tick st);
  ambient_logs : forall st l, R st [] (on_state (with_logs l) st);
  ambient_stop : forall st, R st [] (on_state (with_should_stop true) st);
  ambient_clients : forall st f, R st [] (on_clients f st);
  ambient_stop_event : forall st t,
    R st [EvBroadcast "log" (PLog {| time := t; message := stop_message; level := "warn" |})] st;
}.

(** Frames that the steps of the submission protocol respect: they ignore
    the calls to the page other than the navigation, the waits and the
    info-level log lines. *)
Class Lenient (R : St -> list Event -> St -> Prop) : Prop := {
  lenient_page : forall st ev, is_page_event ev = true -> is_goto ev = false -> R st [ev] st;
  lenient_sleep : forall st q, R st [EvSleep q] st;
  lenient_info : forall st t msg,
    R st [EvBroadcast "log" (PLog {| time := t; message := msg; level := "info" |})] st;
}.

(** Frames that ignore every event but the progress and the completion
    broadcasts. *)
Class Tolerant (R : St -> list Event -> St -> Prop) : Prop := {
  tolerant_event : forall st ev, is_progress ev = false -> is_complete ev = false -> R st [ev] st;
}.

(** Frames that the whole record loop respects: they also ignore the
    progress broadcasts and what happens to [automation_state]. *)
Class Oblivious (R : St -> list Event -> St -> Prop) : Prop := {
  oblivious_progress : forall st ev, is_progress ev = true -> R st [ev] st;
  oblivious_state : forall st f, R st [] (on_state f st);
}.

(** The tallies grow by the number of records started. *)
Definition tallied : St -> list Event -> St -> Prop :=
  fun st evs st' => tally_sum st' = tally_sum st + started evs.

Definition safe {A} (m : M A) : Prop := forall st, exists a, res (m st) = Ok a.

(** ** Further endpoints, scenarios and observations *)

(** The clients whose send raises when a broadcast begins at time [t] and
    no request is served in between: the send to client [k] is answered
    at [t + 2 k + 1]. *)
Fixpoint failed_sends (w : World) (t : nat) (clients : list WebSocket) : list WebSocket :=
  match clients with
  | [] => []
  | ws :: rest =>
      match ws_send_text w (S t) ws with
      | None => failed_sends w (S (S t)) rest
      | Some _ => ws :: failed_sends w (S (S t)) rest
      end
  end.

(** [quiet_world] with the sends to the clients in [dead] failing. *)
Definition dead_clients_world (dead : WebSocket -> bool) : World :=
  let w := quiet_world in
  {| now_hms := now_hms w; now_full := now_full w; stop_posted := stop_posted w;
     ws_send_text := fun _ ws =>
       if dead ws then Some (Exception "connection closed") else None;
     open_sheet := open_sheet w; data_values := data_values w;
     config_values := config_values w; update_cell := update_cell w;
     no_display := no_display w; launch := launch w; new_context := new_context w;
     new_page := new_page w; close := close w; goto := goto w;
     wait_for_visible := wait_for_visible w; click := click w; fill := fill w;
     type_char := type_char w; locator_count := locator_count w;
     uniform := uniform w; randint := randint w; format_1f := format_1f w |}.

(** The process with the clients 1, 2 and 3 connected. *)
Definition three_clients (w : World) : St := on_clients (fun _ => [1; 2; 3]) (boot w).

(** A row of the settings sheet that the loop of [get_sheet_data] gets
    past: [row[0] and row[1]] raises no [IndexError]. *)
Definition readable (cells : list string) : Prop :=
  2 <= length cells \/ cells !! 0 = Some "".

(** The row sets the key [key]: both cells are non-empty and the first,
    stripped, is the key. *)
Definition names (key : string) (cells : list string) : bool :=
  match cells with
  | k :: v :: _ => PyStr.truthy k && PyStr.truthy v && String.eqb (PyStr.strip k) key
  | _ => false
  end.

(** [quiet_world] with the settings sheet missing. *)
Definition no_settings_world : World :=
  let w := quiet_world in
  {| now_hms := now_hms w; now_full := now_full w; stop_posted := stop_posted w;
     ws_send_text := ws_send_text w; open_sheet := open_sheet w;
     data_values := data_values w;
     config_values := fun _ => Raise (Exception "WorksheetNotFound: 설정");
     update_cell := update_cell w;
     no_display := no_display w; launch := launch w; new_context := new_context w;
     new_page := new_page w; close := close w; goto := goto w;
     wait_for_visible := wait_for_visible w; click := click w; fill := fill w;
     type_char := type_char w; locator_count := locator_count w;
     uniform := uniform w; randint := randint w; format_1f := format_1f w |}.

(** The body of the answer of [POST /api/sheets/connect]. *)
Record SheetResponse : Type := {
  sheet_success : bool;
  sheet_total_items : nat;
  sheet_items : list Item;
  sheet_config : gmap string string;
}.

(** [POST /api/sheets/connect]: whatever [get_sheet_data] raises is
    raised again as the HTTP error 400 with the text of the exception. *)
Definition connect_sheet (url : string) : M SheetResponse :=
  try_except
    (data ← get_sheet_data url;
     let '(items, config) := data in
     mret {| sheet_success := true; sheet_total_items := length items;
             sheet_items := items; sheet_config := config |})
    (fun e => raise (HTTPException 400 (str_exn e))).

Definition is_broadcast (ev : Event) : bool :=
  match ev with EvBroadcast _ _ => true | _ => false end.

(** Every value that [m] returns satisfies [Q]. *)
Definition yields {A} (Q : A -> Prop) (m : M A) : Prop :=
  forall st a, res (m st) = Ok a -> Q a.

(** The two kinds of outcome of a submission: success with the text of
    completion, or failure with a reason that begins with the cross. *)
Definition classified (r : bool * string) : Prop :=
  if fst r then snd r = msg_done else String.prefix "❌" (snd r) = true.

Definition is_cell_update (ev : Event) : bool :=
  match ev with EvUpdateCell _ _ _ _ => true | _ => false end.


(** A stop flag that is set stays set. *)
Definition stop_stays : St -> list Event -> St -> Prop :=
  fun st _ st' =>
    should_stop (automation_state st) = true -> should_stop (automation_state st') = true.

(** A stop request is served at the times 30 to 39, that is, while the
    first record is being submitted. *)
Definition stop_during_first_record : nat -> bool := fun t => (30 <=? t) && (t <? 40).
Definition stopped_world : World :=
  scripted_world (sheet_header ++ [row_ok; row_ok]) settings_header
    stop_during_first_record nowhere nothing zero.

(** The progress broadcasts among the events, in order: position, total
    and record of each. *)
Definition progress_of (evs : list Event) : list (nat * nat * Item) :=
  flat_map (fun ev => match ev with
                      | EvBroadcast _ (PProgress current total item) => [(current, total, item)]
                      | _ => []
                      end) evs.

(** A cell update that is not the one of a result cell of the sheet
    [url]: another sheet, a row above the first data row, or a column
    other than G and H. *)
Definition stray_update (url : string) (ev : Event) : bool :=
  match ev with
  | EvUpdateCell u r c _ =>
      negb (String.eqb u url && (4 <=? r) && ((c =? 7) || (c =? 8)))
  | _ => false
  end.


(** The log buffer is within its bound, provided that it was. *)
Definition log_bounded : St -> list Event -> St -> Prop :=
  fun st _ st' =>
    length (logs (automation_state st)) <= 200 ->
    length (logs (automation_state st')) <= 200.

(** * Properties *)

Example strip_ex : PyStr.strip "  ab c " = "ab c" /\ PyStr.strip " " = "".
Proof. split; reflexivity. Qed.

Example int_ex :
  PyStr.int " 1_0 " = Some 10%Z /\ PyStr.int "-3" = Some (-3)%Z /\
  PyStr.int "abc" = None /\ PyStr.int "" = None /\ PyStr.int "1__0" = None.
Proof. repeat split; reflexivity. Qed.

Example contains_ex :
  PyStr.contains "불일치" "❌ 스토어ID/사업자번호 불일치" = true /\
  PyStr.contains "불일치" "❌ 타임아웃" = false.
Proof. split; reflexivity. Qed.

(** ** The log buffer *)

Lemma last_n_short {A} (n : nat) (l : list A) : length l <= n -> last_n n l = l.
Proof.
  intros H. unfold last_n. replace (length l - n) with 0 by lia. reflexivity.
Qed.

Lemma last_n_length {A} (n : nat) (l : list A) : length (last_n n l) = Nat.min n (length l).
Proof. unfold last_n. rewrite length_skipn. lia. Qed.

Lemma last_n_app {A} (n : nat) (l r : list A) :
  last_n n (last_n n l ++ r) = last_n n (l ++ r).
Proof.
  unfold last_n. rewrite !length_app, length_skipn, !skipn_app, drop_drop, length_skipn.
  f_equal; f_equal; lia.
Qed.

Lemma log_append_last_n (buf : list LogEntry) (e : LogEntry) :
  log_append buf e = last_n 200 (buf ++ [e]).
Proof.
  unfold log_append. destruct (Nat.ltb_spec 200 (length (buf ++ [e]))) as [H | H].
  - reflexivity.
  - symmetry. apply last_n_short. exact H.
Qed.

Lemma fold_log_append (es buf : list LogEntry) :
  length buf <= 200 ->
  fold_left log_append es buf = last_n 200 (buf ++ es).
Proof.
  revert buf. induction es as [| e es IH]; intros buf Hbuf; cbn [fold_left].
  - rewrite app_nil_r. symmetry. apply last_n_short. exact Hbuf.
  - rewrite IH.
    + rewrite log_append_last_n, last_n_app, <- app_assoc. reflexivity.
    + rewrite log_append_last_n, last_n_length. lia.
Qed.

(** C5.  Whatever entries are appended to an empty log buffer, in whatever
    number, the buffer holds at most 200 of them, and it holds exactly the
    last 200 appended (all of them while there are fewer), in the order of
    their appending: the oldest entries are the ones evicted. *)
Theorem log_buffer_keeps_last_200 (es : list LogEntry) :
  let buf := fold_left log_append es [] in
  length buf <= 200 /\ buf = skipn (length es - 200) es.
Proof.
  cbn zeta. rewrite fold_log_append by (cbn; lia). cbn [app].
  split.
  - rewrite last_n_length. lia.
  - reflexivity.
Qed.

(** ** Reasoning about monadic code *)

Lemma run_bind {A B} (m : M A) (f : A -> M B) (st : St) :
  (m ≫= f) st =
  match res (m st) with
  | Ok a =>
      {| res := res (f a (final (m st)));
         final := final (f a (final (m st)));
         events := events (m st) ++ events (f a (final (m st))) |}
  | Raise e => {| res := Raise e; final := final (m st); events := events (m st) |}
  end.
Proof. reflexivity. Qed.

Lemma run_bind_ok {A B} (m : M A) (f : A -> M B) (st : St) (a : A) :
  res (m st) = Ok a ->
  (m ≫= f) st =
  {| res := res (f a (final (m st)));
     final := final (f a (final (m st)));
     events := events (m st) ++ events (f a (final (m st))) |}.
Proof. intros H. rewrite run_bind, H. reflexivity. Qed.

Lemma run_bind_raise {A B} (m : M A) (f : A -> M B) (st : St) (e : exn) :
  res (m st) = Raise e ->
  (m ≫= f) st = {| res := Raise e; final := final (m st); events := events (m st) |}.
Proof. intros H. rewrite run_bind, H. reflexivity. Qed.

#[global] Instance kept_frame {X} (obs : St -> X) : Frame (kept obs).
Proof.
  split; unfold kept.
  - reflexivity.
  - intros s1 e1 s2 e2 s3 H1 H2. congruence.
Qed.

#[global] Instance without_frame (P : Event -> bool) : Frame (without P).
Proof.
  split; unfold without.
  - reflexivity.
  - intros s1 e1 s2 e2 s3 H1 H2. rewrite List.filter_app, H1, H2. reflexivity.
Qed.

#[global] Instance both_frame R1 R2 : Frame R1 -> Frame R2 -> Frame (both R1 R2).
Proof.
  intros F1 F2. split; unfold both.
  - intros st. split; apply frame_nil.
  - intros s1 e1 s2 e2 s3 [H1 H2] [H3 H4]. split; eapply frame_app; eassumption.
Qed.

Section Respects.
Context (R : St -> list Event -> St -> Prop) {frameR : Frame R}.

Lemma respects_ret {A} (a : A) : respects R (mret a).
Proof. intros st. apply frame_nil. Qed.

Lemma respects_bind {A B} (m : M A) (f : A -> M B) :
  respects R m -> (forall a, respects R (f a)) -> respects R (m ≫= f).
Proof.
  intros Hm Hf st. rewrite run_bind. destruct (res (m st)) as [a | e]; cbn.
  - eapply frame_app; [apply Hm | apply Hf].
  - apply Hm.
Qed.

Lemma respects_raise {A} (e : exn) : respects R (raise (A := A) e).
Proof. intros st. apply frame_nil. Qed.

Lemma respects_gets {A} (f : St -> A) : respects R (gets f).
Proof. intros st. apply frame_nil. Qed.

Lemma respects_read_state {A} (f : AutomationState -> A) : respects R (read_state f).
Proof. apply respects_gets. Qed.

Lemma respects_lift {A} (r : Res A) : respects R (lift r).
Proof. intros st. apply frame_nil. Qed.

Lemma respects_raise_if (r : option exn) : respects R (raise_if r).
Proof. destruct r; [apply respects_raise | apply respects_ret]. Qed.

Lemma respects_modify (f : St -> St) :
  (forall st, R st [] (f st)) -> respects R (modify f).
Proof. intros H st. apply H. Qed.

Lemma respects_update_state (f : AutomationState -> AutomationState) :
  (forall st, R st [] (on_state f st)) -> respects R (update_state f).
Proof. apply respects_modify. Qed.

Lemma respects_emit (ev : Event) :
  (forall st, R st [ev] st) -> respects R (emit ev).
Proof. intros H st. apply H. Qed.

Lemma respects_try_except {A} (body : M A) (handler : exn -> M A) :
  respects R body -> (forall e, respects R (handler e)) ->
  respects R (try_except body handler).
Proof.
  intros Hb Hh st. unfold try_except. destruct (res (body st)) as [a | e]; cbn.
  - apply Hb.
  - eapply frame_app; [apply Hb | apply Hh].
Qed.

Lemma respects_try_finally {A} (body : M A) (final_block : M unit) :
  respects R body -> respects R final_block ->
  respects R (try_finally body final_block).
Proof.
  intros Hb Hf st. unfold try_finally; cbn.
  eapply frame_app; [apply Hb | apply Hf].
Qed.

Context {ambientR : Ambient R}.

Lemma respects_ask {A} (f : World -> nat -> A) : respects R (ask f).
Proof.
  unfold ask. apply respects_bind; [apply respects_gets |].
  intros a. apply respects_bind; [| intros; apply respects_ret].
  apply respects_modify, ambient_tick.
Qed.

Lemma respects_send_all (pause : M unit) (clients : list WebSocket) :
  respects R pause -> respects R (send_all pause clients).
Proof.
  intros Hp. induction clients as [| ws rest IH]; cbn [send_all].
  - apply respects_ret.
  - apply respects_bind; [exact Hp | intros _].
    apply respects_bind; [apply respects_ask | intros r].
    apply respects_bind; [exact IH | intros d]. apply respects_ret.
Qed.

Lemma respects_broadcast_with (pause : M unit) (event : string) (data : payload) :
  respects R pause -> (forall st, R st [EvBroadcast event data] st) ->
  respects R (broadcast_with pause event data).
Proof.
  intros Hp Hev. unfold broadcast_with.
  apply respects_bind; [apply respects_emit, Hev | intros _].
  apply respects_bind; [apply respects_gets | intros clients].
  apply respects_bind; [apply respects_send_all, Hp | intros d].
  apply respects_modify. intros st. apply ambient_clients.
Qed.

Lemma respects_add_log_with (pause : M unit) (msg lvl : string) :
  respects R pause ->
  (forall st t, R st [EvBroadcast "log" (PLog {| time := t; message := msg; level := lvl |})] st) ->
  respects R (add_log_with pause msg lvl).
Proof.
  intros Hp Hev. unfold add_log_with.
  apply respects_bind; [apply respects_ask | intros t].
  apply respects_bind.
  - apply respects_update_state. intros st.
    apply (ambient_logs st (log_append (logs (automation_state st))
                              {| time := t; message := msg; level := lvl |})).
  - intros _. apply respects_broadcast_with; [exact Hp |].
    intros st. apply Hev.
Qed.

Lemma respects_stop_automation : respects R stop_automation.
Proof.
  unfold stop_automation.
  apply respects_bind; [apply respects_update_state, ambient_stop | intros _].
  apply respects_bind; [| intros; apply respects_ret].
  apply respects_add_log_with; [apply respects_ret | apply ambient_stop_event].
Qed.

Lemma respects_suspend : respects R suspend.
Proof.
  unfold suspend. apply respects_bind; [apply respects_ask | intros posted].
  destruct posted; [| apply respects_ret].
  apply respects_bind; [apply respects_stop_automation | intros; apply respects_ret].
Qed.

Lemma respects_add_log (msg lvl : string) :
  (forall st t, R st [EvBroadcast "log" (PLog {| time := t; message := msg; level := lvl |})] st) ->
  respects R (add_log msg lvl).
Proof. apply respects_add_log_with, respects_suspend. Qed.

Lemma respects_broadcast (event : string) (data : payload) :
  (forall st, R st [EvBroadcast event data] st) -> respects R (broadcast event data).
Proof. apply respects_broadcast_with, respects_suspend. Qed.

Lemma respects_sleep (q : Q) :
  (forall st, R st [EvSleep q] st) -> respects R (sleep q).
Proof.
  intros H. unfold sleep.
  apply respects_bind; [apply respects_emit, H | intros _; apply respects_suspend].
Qed.

Lemma respects_external (ev : Event) (answer : World -> nat -> option exn) :
  (forall st, R st [ev] st) -> respects R (external ev answer).
Proof.
  intros H. unfold external.
  apply respects_bind; [apply respects_emit, H | intros _].
  apply respects_bind; [apply respects_suspend | intros _].
  apply respects_bind; [apply respects_ask | intros r; apply respects_raise_if].
Qed.

End Respects.

#[global] Instance both_ambient R1 R2 : Ambient R1 -> Ambient R2 -> Ambient (both R1 R2).
Proof. intros [] []. split; intros; split; auto. Qed.

(** One step of the proof that a piece of code respects a frame. *)
Ltac respects_step :=
  lazymatch goal with
  | |- respects ?R (mret _) => apply (respects_ret R)
  | |- respects ?R (_ ≫= _) => apply (respects_bind R); [| intros ?]
  | |- respects ?R (raise _) => apply (respects_raise R)
  | |- respects ?R (gets _) => apply (respects_gets R)
  | |- respects ?R (read_state _) => apply (respects_read_state R)
  | |- respects ?R (lift _) => apply (respects_lift R)
  | |- respects ?R (raise_if _) => apply (respects_raise_if R)
  | |- respects ?R (ask _) => apply (respects_ask R)
  | |- respects ?R suspend => apply (respects_suspend R)
  | |- respects ?R (send_all _ _) => apply (respects_send_all R)
  | |- respects ?R (add_log _ _) => apply (respects_add_log R); intros ? ?
  | |- respects ?R (broadcast _ _) => apply (respects_broadcast R); intros ?
  | |- respects ?R broadcast_state => unfold broadcast_state
  | |- respects ?R (sleep _) => apply (respects_sleep R); intros ?
  | |- respects ?R (external _ _) => apply (respects_external R); intros ?
  | |- respects ?R (emit _) => apply (respects_emit R); intros ?
  | |- respects ?R (update_state _) => apply (respects_update_state R); intros ?
  | |- respects ?R (modify _) => apply (respects_modify R); intros ?
  | |- respects ?R (try_except _ _) => apply (respects_try_except R); [| intros ?]
  | |- respects ?R (try_finally _ _) => apply (respects_try_finally R)
  | |- respects _ (if ?b then _ else _) => destruct b
  | |- respects _ (match ?x with _ => _ end) => destruct x
  end.

(** What is left after the steps: a frame at one event or one update. *)
Ltac frame_leaf :=
  cbv [both kept without]; cbn; repeat split; try reflexivity; try lia.

Ltac respects_auto := repeat (first [assumption | respects_step]); try solve [frame_leaf].

#[global] Instance both_lenient R1 R2 : Lenient R1 -> Lenient R2 -> Lenient (both R1 R2).
Proof. intros [] []. split; intros; split; auto. Qed.

Section Protocol.
Context (R : St -> list Event -> St -> Prop)
        {frameR : Frame R} {ambientR : Ambient R} {lenientR : Lenient R}.

Ltac lenient_leaf :=
  lazymatch goal with
  | |- R _ [EvBroadcast _ (PLog {| time := _; message := _; level := "info" |})] _ =>
      exact (@lenient_info R _ _ _ _)
  | |- R _ [EvSleep _] _ => exact (@lenient_sleep R _ _ _)
  | |- R _ [_] _ => apply (@lenient_page R _); reflexivity
  end.

Ltac protocol_auto := repeat (first [assumption | respects_step | lenient_leaf]).

Lemma respects_click_btn (timeout : Z) (text : string) (wait_after : Q) :
  respects R (click_btn timeout text wait_after).
Proof. unfold click_btn. protocol_auto. Qed.

Lemma respects_type_chars (cs : list string) : respects R (type_chars cs).
Proof.
  induction cs as [| c rest IH]; cbn [type_chars]; protocol_auto.
Qed.

Lemma respects_type_msg (timeout : Z) (text : string) (wait_after : Q) :
  respects R (type_msg timeout text wait_after).
Proof.
  unfold type_msg. pose proof (respects_type_chars (PyStr.chars text)). protocol_auto.
Qed.

Lemma respects_count (sel : string) : respects R (count sel).
Proof. unfold count. protocol_auto. Qed.

Lemma respects_or_fail (step : M bool) (msg : string) (rest : M (bool * string)) :
  respects R step -> respects R rest -> respects R (or_fail step msg rest).
Proof. intros Hs Hr. unfold or_fail. protocol_auto. Qed.

End Protocol.

Section ProtocolSteps.
Context (R : St -> list Event -> St -> Prop)
        {frameR : Frame R} {ambientR : Ambient R} {lenientR : Lenient R}.

Ltac steps_step :=
  lazymatch goal with
  | |- respects _ (click_btn _ _ _) => apply (respects_click_btn R)
  | |- respects _ (type_msg _ _ _) => apply (respects_type_msg R)
  | |- respects _ (count _) => apply (respects_count R)
  | |- respects _ (or_fail _ _ _) => apply (respects_or_fail R)
  | |- R _ [EvBroadcast _ (PLog {| time := _; message := _; level := "info" |})] _ =>
      exact (@lenient_info R _ _ _ _)
  | |- R _ [EvSleep _] _ => exact (@lenient_sleep R _ _ _)
  | |- _ => respects_step
  end.

Ltac steps_auto := repeat (first [assumption | steps_step]).

Lemma respects_after_navigation item config timeout :
  respects R (after_navigation item config timeout).
Proof. unfold after_navigation. cbv zeta. steps_auto. Qed.

Lemma respects_submission_steps item config timeout :
  (forall st url, R st [EvGoto url] st) ->
  respects R (submission_steps item config timeout).
Proof.
  intros Hgoto. unfold submission_steps. cbv zeta.
  pose proof (respects_after_navigation item config timeout). steps_auto.
  apply Hgoto.
Qed.

Lemma respects_process_single_item item config :
  (forall st url, R st [EvGoto url] st) ->
  respects R (process_single_item item config).
Proof.
  intros Hgoto. unfold process_single_item.
  pose proof (fun t => respects_submission_steps item config t Hgoto) as Hs. steps_auto.
  apply Hs.
Qed.

Lemma respects_attempt_loop item config delay max_retry attempts msg0 :
  (forall st url, R st [EvGoto url] st) ->
  (forall st t msg,
     R st [EvBroadcast "log" (PLog {| time := t; message := msg; level := "error" |})] st) ->
  respects R (attempt_loop item config delay max_retry attempts msg0).
Proof.
  intros Hgoto Herr. pose proof (respects_process_single_item item config Hgoto).
  revert msg0. induction attempts as [| attempt later IH]; intros msg0; cbn [attempt_loop].
  - steps_auto.
  - unfold retry_notice. steps_auto; first [apply Herr | apply IH].
Qed.

End ProtocolSteps.

(** *** The frames used below *)

Lemma ambient_without (P : Event -> bool) :
  (forall t, P (EvBroadcast "log"
                  (PLog {| time := t; message := stop_message; level := "warn" |})) = false) ->
  Ambient (without P).
Proof.
  intros H. split; unfold without; intros; try reflexivity.
  cbn [List.filter]. rewrite H. reflexivity.
Qed.

Lemma lenient_without (P : Event -> bool) :
  (forall ev, is_page_event ev = true -> is_goto ev = false -> P ev = false) ->
  (forall q, P (EvSleep q) = false) ->
  (forall t msg, P (EvBroadcast "log"
                      (PLog {| time := t; message := msg; level := "info" |})) = false) ->
  Lenient (without P).
Proof.
  intros H1 H2 H3. split; unfold without; intros; cbn [List.filter].
  - rewrite H1 by assumption. reflexivity.
  - rewrite H2. reflexivity.
  - rewrite H3. reflexivity.
Qed.

#[global] Instance ambient_no_complete : Ambient (without is_complete).
Proof. apply ambient_without. reflexivity. Qed.
#[global] Instance ambient_no_progress : Ambient (without is_progress).
Proof. apply ambient_without. reflexivity. Qed.
#[global] Instance ambient_no_sleep : Ambient (without is_sleep).
Proof. apply ambient_without. reflexivity. Qed.
#[global] Instance ambient_no_goto : Ambient (without is_goto).
Proof. apply ambient_without. reflexivity. Qed.
#[global] Instance ambient_no_page : Ambient (without is_page_event).
Proof. apply ambient_without. reflexivity. Qed.
#[global] Instance ambient_no_mismatch_log : Ambient (without is_mismatch_log).
Proof. apply ambient_without. reflexivity. Qed.

#[global] Instance lenient_no_complete : Lenient (without is_complete).
Proof. apply lenient_without; [intros [] | |]; reflexivity || discriminate. Qed.
#[global] Instance lenient_no_progress : Lenient (without is_progress).
Proof. apply lenient_without; [intros [] | |]; reflexivity || discriminate. Qed.
#[global] Instance lenient_no_goto : Lenient (without is_goto).
Proof. apply lenient_without; [intros [] | |]; reflexivity || discriminate. Qed.
#[global] Instance lenient_no_mismatch_log : Lenient (without is_mismatch_log).
Proof. apply lenient_without; [intros [] | |]; reflexivity || discriminate. Qed.

#[global] Instance ambient_kept_tallies : Ambient (kept tallies).
Proof. split; reflexivity. Qed.
#[global] Instance ambient_kept_running : Ambient (kept running).
Proof. split; reflexivity. Qed.
#[global] Instance ambient_kept_world : Ambient (kept world).
Proof. split; reflexivity. Qed.
#[global] Instance lenient_kept {X} (obs : St -> X) : Lenient (kept obs).
Proof. split; reflexivity. Qed.

(** *** Code that never raises *)

Lemma safe_unit (m : M unit) (st : St) : safe m -> res (m st) = Ok tt.
Proof. intros H. destruct (H st) as [[] Ha]. exact Ha. Qed.

Lemma safe_ret {A} (a : A) : safe (mret a).
Proof. intros st. exists a. reflexivity. Qed.

Lemma safe_bind {A B} (m : M A) (f : A -> M B) :
  safe m -> (forall a, safe (f a)) -> safe (m ≫= f).
Proof.
  intros Hm Hf st. destruct (Hm st) as [a Ha].
  rewrite (run_bind_ok m f st a Ha). cbn. apply Hf.
Qed.

Lemma safe_gets {A} (f : St -> A) : safe (gets f).
Proof. intros st. eexists. reflexivity. Qed.

Lemma safe_modify (f : St -> St) : safe (modify f).
Proof. intros st. eexists. reflexivity. Qed.

Lemma safe_emit (ev : Event) : safe (emit ev).
Proof. intros st. eexists. reflexivity. Qed.

Lemma safe_ask {A} (f : World -> nat -> A) : safe (ask f).
Proof.
  unfold ask. apply safe_bind; [apply safe_gets | intros a].
  apply safe_bind; [apply safe_modify | intros _; apply safe_ret].
Qed.

Lemma safe_try_except {A} (body : M A) (handler : exn -> M A) :
  (forall e, safe (handler e)) -> safe (try_except body handler).
Proof.
  intros Hh st. unfold try_except. destruct (res (body st)) as [a | e] eqn:E.
  - exists a. exact E.
  - cbn. apply Hh.
Qed.

Lemma safe_send_all (pause : M unit) (clients : list WebSocket) :
  safe pause -> safe (send_all pause clients).
Proof.
  intros Hp. induction clients as [| ws rest IH]; cbn [send_all].
  - apply safe_ret.
  - apply safe_bind; [exact Hp | intros _].
    apply safe_bind; [apply safe_ask | intros r].
    apply safe_bind; [exact IH | intros d; apply safe_ret].
Qed.

Lemma safe_broadcast_with (pause : M unit) (event : string) (data : payload) :
  safe pause -> safe (broadcast_with pause event data).
Proof.
  intros Hp. unfold broadcast_with.
  apply safe_bind; [apply safe_emit | intros _].
  apply safe_bind; [apply safe_gets | intros clients].
  apply safe_bind; [apply safe_send_all, Hp | intros d; apply safe_modify].
Qed.

Lemma safe_add_log_with (pause : M unit) (msg lvl : string) :
  safe pause -> safe (add_log_with pause msg lvl).
Proof.
  intros Hp. unfold add_log_with.
  apply safe_bind; [apply safe_ask | intros t].
  apply safe_bind; [apply safe_modify | intros _].
  apply safe_broadcast_with, Hp.
Qed.

Lemma safe_stop_automation : safe stop_automation.
Proof.
  unfold stop_automation.
  apply safe_bind; [apply safe_modify | intros _].
  apply safe_bind; [apply safe_add_log_with, safe_ret | intros _; apply safe_ret].
Qed.

Lemma safe_suspend : safe suspend.
Proof.
  unfold suspend. apply safe_bind; [apply safe_ask | intros posted].
  destruct posted; [| apply safe_ret].
  apply safe_bind; [apply safe_stop_automation | intros _; apply safe_ret].
Qed.

Lemma safe_add_log (msg lvl : string) : safe (add_log msg lvl).
Proof. apply safe_add_log_with, safe_suspend. Qed.

Lemma safe_broadcast (event : string) (data : payload) : safe (broadcast event data).
Proof. apply safe_broadcast_with, safe_suspend. Qed.

Lemma safe_broadcast_state : safe broadcast_state.
Proof.
  unfold broadcast_state. apply safe_bind; [apply safe_gets | intros a; apply safe_broadcast].
Qed.


Lemma safe_click_btn timeout text wait_after : safe (click_btn timeout text wait_after).
Proof. apply safe_try_except. intros e. apply safe_ret. Qed.

Lemma safe_type_msg timeout text wait_after : safe (type_msg timeout text wait_after).
Proof. apply safe_try_except. intros e. apply safe_ret. Qed.

(** Sequencing after code that does not raise. *)
Lemma run_seq {B} (m : M unit) (k : M B) (st : St) :
  safe m ->
  (m ≫= fun _ => k) st =
  {| res := res (k (final (m st)));
     final := final (k (final (m st)));
     events := events (m st) ++ events (k (final (m st))) |}.
Proof. intros H. apply run_bind_ok with (a := tt). apply safe_unit, H. Qed.

(** [process_single_item] raises only the [ValueError] of a malformed
    timeout setting. *)
Lemma process_single_item_res item config st :
  match config_int config key_timeout 10 with
  | Ok _ => exists r, res (process_single_item item config st) = Ok r
  | Raise e =>
      res (process_single_item item config st) = Raise e /\
      events (process_single_item item config st) = [] /\
      final (process_single_item item config st) = st
  end.
Proof.
  unfold process_single_item. rewrite run_bind. cbn.
  destruct (config_int config key_timeout 10) as [z | e]; cbn.
  - match goal with |- context [try_except ?b ?h] => 
      destruct (safe_try_except b h) with (st := st) as [r Hr] end.
    + intros e. destruct (is_PlaywrightTimeout e); apply safe_ret.
    + exists r. exact Hr.
  - repeat split.
Qed.

(** *** Projections of runs *)

Lemma broadcast_with_events pause event data st :
  events (broadcast_with pause event data st) =
  EvBroadcast event data ::
  events ((clients ← gets connected_clients;
           disconnected ← send_all pause clients;
           modify (on_clients (fun l => fold_left (fun l ws => remove_first ws l) disconnected l)))
            st).
Proof. reflexivity. Qed.

Lemma add_log_events msg lvl st :
  exists e rest,
    events (add_log msg lvl st) = EvBroadcast "log" (PLog e) :: rest /\
    message e = msg /\ level e = lvl.
Proof.
  unfold add_log, add_log_with. rewrite run_bind.
  destruct (safe_ask now_hms st) as [t Ht]. rewrite Ht. cbn [events res final].
  assert (events (ask now_hms st) = []) as -> by reflexivity. cbn [app].
  rewrite run_bind. cbn [res update_state modify events final app].
  rewrite broadcast_with_events.
  eexists _, _. split; [reflexivity |]. split; reflexivity.
Qed.


Lemma final_seq {B} (m : M unit) (k : M B) (st : St) :
  safe m -> final ((m ≫= fun _ => k) st) = final (k (final (m st))).
Proof. intros H. rewrite run_seq by exact H. reflexivity. Qed.

Lemma events_seq {B} (m : M unit) (k : M B) (st : St) :
  safe m -> events ((m ≫= fun _ => k) st) = events (m st) ++ events (k (final (m st))).
Proof. intros H. rewrite run_seq by exact H. reflexivity. Qed.




Lemma final_update_state f st : final (update_state f st) = on_state f st.
Proof. reflexivity. Qed.

Lemma events_update_state f st : events (update_state f st) = [].
Proof. reflexivity. Qed.

Lemma final_try_finally {A} (body : M A) (final_block : M unit) st :
  final (try_finally body final_block st) = final (final_block (final (body st))).
Proof. reflexivity. Qed.


Lemma safe_update_state f : safe (update_state f).
Proof. apply safe_modify. Qed.

Lemma res_try_except_ok {A} (body : M A) (handler : exn -> M A) st a :
  res (body st) = Ok a -> try_except body handler st = body st.
Proof. intros H. unfold try_except. rewrite H. reflexivity. Qed.

Lemma run_try_except_raise {A} (body : M A) (handler : exn -> M A) st e :
  res (body st) = Raise e ->
  try_except body handler st =
  {| res := res (handler e (final (body st)));
     final := final (handler e (final (body st)));
     events := events (body st) ++ events (handler e (final (body st))) |}.
Proof. intros H. unfold try_except. rewrite H. reflexivity. Qed.

Lemma run_ret {A} (a : A) st :
  (mret a : M A) st = {| res := Ok a; final := st; events := [] |}.
Proof. reflexivity. Qed.

Lemma run_raise {A} (e : exn) st :
  raise (A := A) e st = {| res := Raise e; final := st; events := [] |}.
Proof. reflexivity. Qed.

Lemma run_lift {A} (r : Res A) st : lift r st = {| res := r; final := st; events := [] |}.
Proof. reflexivity. Qed.

Lemma run_gets {A} (f : St -> A) st : gets f st = {| res := Ok (f st); final := st; events := [] |}.
Proof. reflexivity. Qed.

Lemma run_emit ev st : emit ev st = {| res := Ok tt; final := st; events := [ev] |}.
Proof. reflexivity. Qed.

Lemma run_modify f st : modify f st = {| res := Ok tt; final := f st; events := [] |}.
Proof. reflexivity. Qed.

Lemma run_ask {A} (f : World -> nat -> A) st :
  ask f st = {| res := Ok (f (world st) (clock st)); final := tick st; events := [] |}.
Proof. reflexivity. Qed.

Lemma res_bind_inv {A B} (m : M A) (f : A -> M B) (st : St) (b : B) :
  res ((m ≫= f) st) = Ok b ->
  exists a, res (m st) = Ok a /\ res (f a (final (m st))) = Ok b.
Proof.
  rewrite run_bind. destruct (res (m st)) as [a | e]; cbn; intros H.
  - exists a. split; [reflexivity | exact H].
  - discriminate.
Qed.

Lemma final_raise_if r st : final (raise_if r st) = st.
Proof. destruct r; reflexivity. Qed.

Lemma events_raise_if r st : events (raise_if r st) = [].
Proof. destruct r; reflexivity. Qed.

Lemma res_raise_if_ok r st u : res (raise_if r st) = Ok u -> r = None.
Proof. destruct r; [discriminate | reflexivity]. Qed.

(** ** The sheet reader *)

Lemma index_ok (cells : list string) (k : nat) (c : string) :
  index cells k = Ok c -> cells !! k = Some c.
Proof. unfold index. destruct (cells !! k); intros H; inversion H; reflexivity. Qed.

Lemma res_bind_ok {A B} (r : Res A) (f : A -> Res B) (b : B) :
  r ≫= f = Ok b -> exists a, r = Ok a /\ f a = Ok b.
Proof. destruct r as [a | e]; cbn; intros H; [exists a; auto | discriminate]. Qed.

Lemma make_item_fields (i : nat) (cells : list string) (it : Item) :
  make_item i cells = Ok it ->
  row it = i /\ exists c2, cells !! 2 = Some c2 /\ store_id it = PyStr.strip c2.
Proof.
  unfold make_item. intros H.
  apply res_bind_ok in H as (c0 & E0 & H).
  apply res_bind_ok in H as (c1 & E1 & H).
  apply res_bind_ok in H as (c2 & E2 & H).
  apply res_bind_ok in H as (c3 & E3 & H).
  apply res_bind_ok in H as (c4 & E4 & H).
  apply res_bind_ok in H as (c5 & E5 & H).
  apply res_bind_ok in H as (c6 & E6 & H).
  apply res_bind_ok in H as (c7 & E7 & H).
  inversion H; subst it; cbn. split; [reflexivity |].
  exists c2. split; [apply index_ok, E2 | reflexivity].
Qed.

Lemma truthy_false (s : string) : PyStr.truthy s = false <-> s = "".
Proof.
  unfold PyStr.truthy. destruct (String.eqb_spec s ""); cbn; split; intros; congruence.
Qed.

Lemma read_items_spec (rows : list (list string)) (i : nat) (items : list Item) :
  read_items i rows = Ok items ->
  map row items = seq i (length items) /\
  (forall k it, items !! k = Some it ->
     exists cells c2, rows !! k = Some cells /\ cells !! 2 = Some c2 /\ c2 <> "" /\
                      store_id it = PyStr.strip c2) /\
  (forall cells, rows !! length items = Some cells -> cells !! 2 = Some "").
Proof.
  revert i items. induction rows as [| cells rest IH]; intros i items H; cbn [read_items] in H.
  - inversion H; subst. cbn. split; [reflexivity |].
    split; intros; try rewrite lookup_nil in *; discriminate.
  - apply res_bind_ok in H as (c2 & E2 & H). apply index_ok in E2.
    destruct (PyStr.truthy c2) eqn:T; cbn [negb] in H.
    + apply res_bind_ok in H as (it & Em & H).
      apply res_bind_ok in H as (its & Er & H).
      inversion H; subst items. clear H.
      destruct (IH _ _ Er) as (Hrows & Hcells & Hstop).
      destruct (make_item_fields _ _ _ Em) as (Hrow & c2' & Hc2 & Hstore).
      split; [| split].
      * cbn. rewrite Hrow, Hrows. reflexivity.
      * intros [| k] it' Hk; cbn in Hk.
        -- inversion Hk; subst it'. exists cells, c2'.
           rewrite E2 in Hc2. inversion Hc2; subst c2'.
           repeat split; try assumption.
           intros ->. discriminate T.
        -- apply Hcells. exact Hk.
      * intros cells' Hl. apply Hstop. exact Hl.
    + inversion H; subst items. cbn. split; [reflexivity |].
      split; [intros; try rewrite lookup_nil in *; discriminate |].
      intros cells' Hl. inversion Hl; subst cells'.
      rewrite E2. f_equal. apply truthy_false. exact T.
Qed.

Lemma missing_store_id (it : Item) :
  In "스토어ID" (missing_fields it) <-> store_id it = "".
Proof.
  unfold missing_fields. rewrite <- truthy_false.
  destruct (PyStr.truthy (store_id it)), (PyStr.truthy (business_number it)),
    (PyStr.truthy (order_number it)); cbn; split; intros H;
    try reflexivity; try discriminate; try (left; reflexivity);
    repeat (destruct H as [H | H]; try discriminate H); try contradiction.
Qed.

(** ** Starting a run *)

(** C6.  A start request that arrives while the running flag is set is
    answered with the conflict error (HTTP 409) and leaves the whole
    process state as it was.  When the flag is not set the request is
    answered with success at once: the handler only schedules the run
    task, and the state of the run is not touched before that task runs. *)
Theorem start_rejected_while_running (req : RunRequest) (st : St) :
  let o := start_automation req st in
  (is_running (automation_state st) = true ->
     res o = Raise (HTTPException 409 "이미 실행 중입니다") /\
     final o = st /\ events o = []) /\
  (is_running (automation_state st) = false ->
     res o = Ok {| resp_success := true; resp_message := Some "자동화가 시작되었습니다" |} /\
     automation_state (final o) = automation_state st /\
     tasks (final o) = tasks st ++ [req] /\
     events o = []).
Proof.
  cbn zeta. unfold start_automation. split; intros H.
  - rewrite run_bind. cbn. rewrite H. cbn. repeat split.
  - rewrite run_bind. cbn. rewrite H. cbn. repeat split.
Qed.

Lemma start_rejected_while_running_witness :
  (res (start_automation sample_request (busy quiet_world)) =
     Raise (HTTPException 409 "이미 실행 중입니다") /\
   final (start_automation sample_request (busy quiet_world)) = busy quiet_world /\
   events (start_automation sample_request (busy quiet_world)) = []) /\
  (res (start_automation sample_request (boot quiet_world)) =
     Ok {| resp_success := true; resp_message := Some "자동화가 시작되었습니다" |} /\
   automation_state (final (start_automation sample_request (boot quiet_world))) =
     automation_state (boot quiet_world) /\
   tasks (final (start_automation sample_request (boot quiet_world))) =
     tasks (boot quiet_world) ++ [sample_request] /\
   events (start_automation sample_request (boot quiet_world)) = []).
Proof.
  split.
  - apply (proj1 (start_rejected_while_running sample_request (busy quiet_world))).
    reflexivity.
  - apply (proj2 (start_rejected_while_running sample_request (boot quiet_world))).
    reflexivity.
Defined.

(** Runs that begin with a step whose outcome is known. *)
Lemma run_read_state_eq {A B} (f : AutomationState -> A) (k : A -> M B) (st : St) :
  (read_state f ≫= k) st = k (f (automation_state st)) st.
Proof.
  rewrite run_bind. cbn. destruct (k (f (automation_state st)) st). reflexivity.
Qed.

Lemma run_gets_eq {A B} (f : St -> A) (k : A -> M B) (st : St) :
  (gets f ≫= k) st = k (f st) st.
Proof. rewrite run_bind. cbn. destruct (k (f st) st). reflexivity. Qed.

Lemma run_ask_eq {A B} (f : World -> nat -> A) (k : A -> M B) (st : St) :
  (ask f ≫= k) st = k (f (world st) (clock st)) (tick st).
Proof.
  rewrite run_bind, run_ask. cbn [res final events app].
  destruct (k (f (world st) (clock st)) (tick st)). reflexivity.
Qed.

Lemma run_update_state_eq {B} f (k : M B) (st : St) :
  (update_state f ≫= fun _ => k) st = k (on_state f st).
Proof. rewrite run_bind. cbn. destruct (k (on_state f st)). reflexivity. Qed.

Lemma run_lift_ok_eq {A B} (a : A) (k : A -> M B) (st : St) :
  (lift (Ok a) ≫= k) st = k a st.
Proof. rewrite run_bind. cbn. destruct (k a st). reflexivity. Qed.

Lemma run_ret_eq {A B} (a : A) (k : A -> M B) (st : St) :
  (mret a ≫= k) st = k a st.
Proof. rewrite run_bind. cbn. destruct (k a st). reflexivity. Qed.


(** Projections of a sequence whose first part has a known outcome, and
    of a guarded block. *)
Lemma res_of_bind_ok {A B} (m : M A) (f : A -> M B) (st : St) (a : A) :
  res (m st) = Ok a -> res ((m ≫= f) st) = res (f a (final (m st))).
Proof. intros H. rewrite (run_bind_ok m f st a H). reflexivity. Qed.



Lemma res_of_bind_raise {A B} (m : M A) (f : A -> M B) (st : St) (e : exn) :
  res (m st) = Raise e -> res ((m ≫= f) st) = Raise e.
Proof. intros H. rewrite (run_bind_raise m f st e H). reflexivity. Qed.





(** From here on the monad is used through the lemmas above only. *)
#[global] Opaque M_bind M_ret raise gets modify emit lift try_except try_finally.


#[global] Instance tolerant_lenient R : Tolerant R -> Lenient R.
Proof.
  intros [H]. split; intros; apply H; try reflexivity.
  - destruct ev; (reflexivity || discriminate).
  - destruct ev; (reflexivity || discriminate).
Qed.

#[global] Instance both_tolerant R1 R2 : Tolerant R1 -> Tolerant R2 -> Tolerant (both R1 R2).
Proof. intros [] []. split; intros; split; auto. Qed.

#[global] Instance tolerant_kept {X} (obs : St -> X) : Tolerant (kept obs).
Proof. split; reflexivity. Qed.
#[global] Instance tolerant_no_complete : Tolerant (without is_complete).
Proof. split. intros st ev _ H. unfold without. cbn. rewrite H. reflexivity. Qed.
#[global] Instance tolerant_no_progress : Tolerant (without is_progress).
Proof. split. intros st ev H _. unfold without. cbn. rewrite H. reflexivity. Qed.

Section Tolerance.
Context (R : St -> list Event -> St -> Prop)
        {frameR : Frame R} {ambientR : Ambient R} {tolerantR : Tolerant R}.

Ltac tolerant_step :=
  lazymatch goal with
  | |- R _ [_] _ => apply (@tolerant_event R _); reflexivity
  | |- respects _ (attempt_loop _ _ _ _ _ _) =>
      apply (respects_attempt_loop R); intros; apply (@tolerant_event R _); reflexivity
  | |- _ => respects_step
  end.

Ltac tolerant_auto := repeat (first [assumption | tolerant_step]).

Lemma respects_log (msg lvl : string) : respects R (add_log msg lvl).
Proof. tolerant_auto. Qed.

Lemma respects_broadcast_state : respects R broadcast_state.
Proof. tolerant_auto. Qed.


Lemma respects_update_sheet_result url r stat ts :
  respects R (update_sheet_result url r stat ts).
Proof. unfold update_sheet_result. tolerant_auto. Qed.

Lemma respects_pacing delay total i : respects R (pacing delay total i).
Proof. unfold pacing. tolerant_auto. Qed.

Lemma respects_attempts item config delay max_retry attempts msg0 :
  respects R (attempt_loop item config delay max_retry attempts msg0).
Proof. tolerant_auto. Qed.



End Tolerance.

#[global] Instance oblivious_no_complete : Oblivious (without is_complete).
Proof. split; [intros st [] | intros]; reflexivity || discriminate || (destruct data; reflexivity || discriminate). Qed.
#[global] Instance oblivious_kept_world : Oblivious (kept world).
Proof. split; reflexivity. Qed.

Section Oblivion.
Context (R : St -> list Event -> St -> Prop)
        {frameR : Frame R} {ambientR : Ambient R} {tolerantR : Tolerant R}
        {obliviousR : Oblivious R}.










End Oblivion.

(** ** Run completion *)





(** ** What the reader returns *)

Lemma get_sheet_data_res url st items config :
  res (get_sheet_data url st) = Ok (items, config) ->
  exists records,
    data_values (world st) (S (clock st)) = Ok records /\
    if length records <? 4 then items = [] /\ config = ∅
    else read_items 4 (skipn 3 records) = Ok items /\
         config = match config_values (world st) (S (S (clock st))) with
                  | Ok rows => read_config (skipn 3 rows) ∅
                  | Raise _ => ∅
                  end.
Proof.
  unfold get_sheet_data. intros H.
  apply res_bind_inv in H as (u & _ & H). rewrite run_emit in H. cbn [final] in H.
  apply res_bind_inv in H as (r & Hr & H). rewrite run_ask in Hr, H. cbn [res final] in Hr, H.
  apply res_bind_inv in H as (u' & Hopen & H). rewrite final_raise_if in H.
  apply res_bind_inv in H as (rec & Hrec & H). rewrite run_ask in Hrec, H.
  cbn [res final tick world clock] in Hrec, H. inversion Hrec; subst rec; clear Hrec.
  apply res_bind_inv in H as (records & Hrecords & H). rewrite run_lift in Hrecords, H.
  cbn [res final] in Hrecords, H.
  exists records. split; [exact Hrecords |].
  destruct (length records <? 4).
  - rewrite run_ret in H. cbn [res] in H. inversion H. split; reflexivity.
  - apply res_bind_inv in H as (its & Hits & H). rewrite run_lift in Hits, H.
    cbn [res final] in Hits, H.
    apply res_bind_inv in H as (cd & Hcd & H). rewrite run_ask in Hcd, H.
    cbn [res final tick world clock] in Hcd, H. inversion Hcd; subst cd; clear Hcd.
    rewrite run_ret in H. cbn [res] in H. inversion H; subst. split; [exact Hits | reflexivity].
Qed.

(** C10 (amended).  Every record returned by [get_sheet_data] comes from
    a row whose store-ID cell is not empty, the reader stops at the first
    row whose store-ID cell is empty, and the records carry the
    consecutive row addresses 4, 5, ....  The store identifier of a record
    is the cell without its surrounding whitespace: it is empty when the
    cell holds whitespace only, and exactly then the skip message names
    the store identifier. *)
Theorem reader_rows_and_store_cells (url : string) (st : St)
    (items : list Item) (config : gmap string string) :
  res (get_sheet_data url st) = Ok (items, config) ->
  reader_contract st items.
Proof.
  intros H. apply get_sheet_data_res in H as (records & Hrec & H).
  exists records. split; [exact Hrec |].
  destruct (Nat.ltb_spec (length records) 4) as [Hlen | Hlen].
  - destruct H as [-> _]. cbn. split; [reflexivity |].
    split; [intros k it Hk; rewrite lookup_nil in Hk; discriminate |].
    intros cells Hc. apply lookup_lt_Some in Hc. lia.
  - destruct H as [Hitems _]. apply read_items_spec in Hitems as (Hrows & Hcells & Hstop).
    split; [exact Hrows |]. split.
    + intros k it Hk. destruct (Hcells k it Hk) as (cells & c2 & Hc & Hc2 & Hne & Hs).
      exists cells, c2. rewrite lookup_drop in Hc.
      repeat split; try assumption.
      * intros Hin. apply missing_store_id in Hin. congruence.
      * intros He. apply missing_store_id. congruence.
    + intros cells Hc. apply Hstop. rewrite lookup_drop. exact Hc.
Qed.

Lemma reader_rows_and_store_cells_witness :
  res (get_sheet_data sample_url (boot quiet_world)) = Ok ([sample_item], ∅) /\
  reader_contract (boot quiet_world) [sample_item].
Proof.
  assert (H : res (get_sheet_data sample_url (boot quiet_world)) = Ok ([sample_item], ∅))
    by (vm_compute; reflexivity).
  split; [exact H |].
  exact (reader_rows_and_store_cells sample_url (boot quiet_world) [sample_item] ∅ H).
Defined.

(** C10 as stated fails: a row whose store-ID cell holds one space is
    returned as a record with an empty store identifier, and for that
    record the skip message names the store identifier. *)
Lemma reader_returns_blank_store_id :
  exists it config,
    res (get_sheet_data sample_url (boot blank_store_world)) = Ok ([it], config) /\
    row it = 4 /\ store_id it = "" /\
    skip_message (missing_fields it) = "⏭ 스킵 (누락: 스토어ID)".
Proof.
  eexists _, _. split; [vm_compute; reflexivity |].
  repeat split.
Qed.

(** ** Reading the settings *)

Lemma started_nil_of_respects {A} (m : M A) (st : St) :
  respects (without is_progress) m -> started (events (m st)) = 0.
Proof. intros H. unfold started. rewrite (H st). reflexivity. Qed.





(** ** The record loop: skipped records *)

Lemma safe_record_announce total i item : safe (record_announce total i item).
Proof.
  unfold record_announce.
  apply safe_bind; [apply safe_update_state | intros _].
  apply safe_bind; [apply safe_broadcast | intros _].
  apply safe_bind; [apply safe_add_log | intros _]. apply safe_add_log.
Qed.

Lemma record_body_running url config delay max_retry total i item st :
  should_stop (automation_state st) = false ->
  record_body url config delay max_retry total i item st =
  (record_announce total i item;;
   match missing_fields item with
   | _ :: _ => record_skip url item (missing_fields item);; mret Continue
   | [] =>
       record_attempt url config delay max_retry item;;
       pacing delay total i;;
       mret Continue
   end) st.
Proof.
  intros H. unfold record_body. rewrite run_read_state_eq, H. reflexivity.
Qed.







Lemma final_then_ret {A B} (m : M A) (b : B) (st : St) :
  final ((m ≫= fun _ => mret b) st) = final (m st).
Proof. rewrite run_bind. destruct (res (m st)); [rewrite run_ret |]; reflexivity. Qed.




(** ** Pacing between records *)









(** ** Writing the result back *)

(** C2 fails on the skip branch.  The sheet holds a record without
    business number in row 4 and a complete record in row 5, and the
    cell updates of row 4 raise.  The skip branch calls
    [update_sheet_result] outside any [try]: the exception ends the run
    with the fatal log line, no warning about the write is logged and the
    second record is never started.  When it is the write after an
    attempted record that raises (rows exchanged), the warning is logged
    and the run goes on to the next record. *)
Lemma skip_write_failure_aborts_run :
  let r := run_automation sample_url 1 0 (boot skip_write_fails_world) in
  let r' := run_automation sample_url 1 0 (boot attempt_write_fails_world) in
  total_items (automation_state (final r)) = 2 /\
  started (events r) = 1 /\
  tallies (final r) = (0, 0, 1) /\
  warn_and_error_lines (final r) =
    [("warn", "⏭ 스킵 (누락: 사업자번호)");
     ("error", "💥 치명적 오류: APIError: quota exceeded")] /\
  started (events r') = 2 /\
  tallies (final r') = (1, 0, 1) /\
  warn_and_error_lines (final r') =
    [("warn", "  ⚠️ 시트 결과 기록 실패: APIError: quota exceeded");
     ("warn", "⏭ 스킵 (누락: 사업자번호)")].
Proof. vm_compute. repeat split. Qed.

(** ** Retries *)






Lemma attempts_made_app (l1 l2 : list Event) :
  attempts_made (l1 ++ l2) = attempts_made l1 + attempts_made l2.
Proof. unfold attempts_made. rewrite List.filter_app, length_app. reflexivity. Qed.














(** ** One tally per record *)

Lemma started_app (l1 l2 : list Event) : started (l1 ++ l2) = started l1 + started l2.
Proof. unfold started. rewrite List.filter_app, length_app. reflexivity. Qed.

#[global] Instance tallied_frame : Frame tallied.
Proof.
  split; unfold tallied.
  - intros st. cbn. lia.
  - intros s1 e1 s2 e2 s3 H1 H2. rewrite started_app. lia.
Qed.




Lemma respects_skip_no_progress url item missing :
  respects (without is_progress) (record_skip url item missing).
Proof. unfold record_skip, update_sheet_result. respects_auto. Qed.

Lemma respects_attempt_no_progress url config delay max_retry item :
  respects (without is_progress) (record_attempt url config delay max_retry item).
Proof.
  unfold record_attempt.
  apply (respects_bind (without is_progress)); [apply (respects_attempts (without is_progress)) |].
  intros [ok msg]. unfold update_sheet_result. respects_auto.
Qed.





#[global] Instance tallied_ambient : Ambient tallied.
Proof. split; intros; unfold tallied, tally_sum; cbn; lia. Qed.

#[global] Instance tallied_tolerant : Tolerant tallied.
Proof.
  split. intros st ev H _. unfold tallied, started. cbn [List.filter]. rewrite H. cbn. lia.
Qed.











(** ** The fan-out to the clients *)

Lemma suspend_quiet (st : St) :
  stop_posted (world st) (clock st) = false ->
  suspend st = {| res := Ok tt; final := tick st; events := [] |}.
Proof.
  intros H. unfold suspend. rewrite run_ask_eq, H. apply run_ret.
Qed.

Lemma send_all_quiet (clients : list WebSocket) (st : St) :
  (forall t, stop_posted (world st) t = false) ->
  send_all suspend clients st =
  {| res := Ok (failed_sends (world st) (clock st) clients);
     final := Nat.iter (2 * length clients) tick st;
     events := [] |}.
Proof.
  revert st. induction clients as [| ws rest IH]; intros st Hq; cbn [send_all].
  - apply run_ret.
  - rewrite run_bind_ok with (a := tt) by (rewrite suspend_quiet by apply Hq; reflexivity).
    rewrite suspend_quiet by apply Hq. cbn [res final events app].
    rewrite run_ask_eq. cbn [tick world clock].
    rewrite run_bind_ok with (a := failed_sends (world st) (S (S (clock st))) rest)
      by (rewrite IH by apply Hq; reflexivity).
    rewrite IH by apply Hq. cbn [res final events app failed_sends tick world clock].
    rewrite run_ret. cbn [res final events].
    replace (2 * length (ws :: rest)) with (S (S (2 * length rest))) by (cbn; lia).
    rewrite !Nat.iter_succ_r.
    destruct (ws_send_text (world st) (S (clock st)) ws); reflexivity.
Qed.

Lemma iter_tick_fields (n : nat) (st : St) :
  automation_state (Nat.iter n tick st) = automation_state st /\
  connected_clients (Nat.iter n tick st) = connected_clients st /\
  tasks (Nat.iter n tick st) = tasks st /\
  world (Nat.iter n tick st) = world st /\
  clock (Nat.iter n tick st) = clock st + n.
Proof.
  induction n as [| n IH].
  - cbn. repeat split. lia.
  - rewrite Nat.iter_succ. destruct IH as (Ha & Hc & Ht & Hw & Hk).
    cbn [tick automation_state connected_clients tasks world clock].
    repeat split; try assumption. lia.
Qed.

Lemma failed_sends_subset (w : World) (t : nat) (l : list WebSocket) (ws : WebSocket) :
  ws ∈ failed_sends w t l -> ws ∈ l.
Proof.
  revert t. induction l as [| x l IH]; intros t; cbn [failed_sends].
  - intros H. exact H.
  - destruct (ws_send_text w (S t) x); rewrite ?elem_of_cons; intros H.
    + destruct H as [H | H]; [left; exact H | right; eapply IH, H].
    + right. eapply IH, H.
Qed.

Lemma remove_all_cons (d l : list WebSocket) (x : WebSocket) :
  x ∉ d ->
  fold_left (fun l ws => remove_first ws l) d (x :: l) =
  x :: fold_left (fun l ws => remove_first ws l) d l.
Proof.
  revert l. induction d as [| y d IH]; intros l Hx; cbn [fold_left].
  - reflexivity.
  - rewrite not_elem_of_cons in Hx. destruct Hx as [Hxy Hd].
    cbn [remove_first]. destruct (Nat.eqb_spec y x) as [-> | _]; [contradiction |].
    apply IH, Hd.
Qed.

(** Removing the clients whose send failed leaves the others in their
    order. *)
Lemma prune_failed_sends (w : World) (t : nat) (l : list WebSocket) :
  NoDup l ->
  let l' := fold_left (fun l ws => remove_first ws l) (failed_sends w t l) l in
  sublist l' l /\
  forall k ws, l !! k = Some ws ->
    (ws ∈ l' <-> ws_send_text w (t + 2 * k + 1) ws = None).
Proof.
  cbv zeta. revert t. induction l as [| x l IH]; intros t Hnd.
  - split; [constructor |]. intros k ws Hk. rewrite lookup_nil in Hk. discriminate.
  - apply NoDup_cons in Hnd as [Hx Hnd]. specialize (IH (S (S t)) Hnd) as [Hsub Hmem].
    cbn [failed_sends].
    destruct (ws_send_text w (S t) x) as [e |] eqn:Hsend.
    + cbn [fold_left remove_first]. rewrite Nat.eqb_refl. split.
      * apply sublist_cons, Hsub.
      * intros [| k] ws Hk; cbn in Hk.
        -- inversion Hk; subst ws. replace (t + 2 * 0 + 1) with (S t) by lia.
           rewrite Hsend. split; [| discriminate].
           intros Hin. exfalso. apply Hx. eapply elem_of_sublist; eassumption.
        -- rewrite (Hmem k ws Hk). replace (S (S t) + 2 * k + 1) with (t + 2 * S k + 1) by lia.
           reflexivity.
    + rewrite remove_all_cons
        by (intros Hin; apply Hx; eapply failed_sends_subset, Hin).
      split.
      * apply sublist_skip, Hsub.
      * intros [| k] ws Hk; cbn in Hk.
        -- inversion Hk; subst ws. replace (t + 2 * 0 + 1) with (S t) by lia.
           rewrite Hsend. split; [reflexivity | intros _; left].
        -- rewrite elem_of_cons, (Hmem k ws Hk).
           replace (S (S t) + 2 * k + 1) with (t + 2 * S k + 1) by lia.
           split; [| intros H; right; exact H].
           intros [-> | H]; [| exact H].
           exfalso. apply Hx. eapply list_elem_of_lookup_2, Hk.
Qed.

(** X1.  A broadcast during which no stop request is served never raises
    and emits the one broadcast event; it leaves [automation_state] as it
    was; the clients that remain registered are the former ones in their
    order, and a client remains exactly when the send to it succeeded. *)
Theorem broadcast_drops_failed_clients (event : string) (data : payload) (st : St) :
  (forall t, stop_posted (world st) t = false) ->
  NoDup (connected_clients st) ->
  let o := broadcast event data st in
  res o = Ok tt /\ events o = [EvBroadcast event data] /\
  automation_state (final o) = automation_state st /\
  sublist (connected_clients (final o)) (connected_clients st) /\
  forall k ws, connected_clients st !! k = Some ws ->
    (ws ∈ connected_clients (final o) <->
     ws_send_text (world st) (clock st + 2 * k + 1) ws = None).
Proof.
  intros Hq Hnd. cbv zeta. unfold broadcast, broadcast_with.
  rewrite run_bind_ok with (a := tt) by (rewrite run_emit; reflexivity).
  rewrite run_emit. cbn [res final events].
  rewrite run_gets_eq.
  rewrite run_bind_ok with (a := failed_sends (world st) (clock st) (connected_clients st))
    by (rewrite send_all_quiet by exact Hq; reflexivity).
  rewrite send_all_quiet by exact Hq. cbn [res final events].
  rewrite run_modify. cbn [res final events app on_clients automation_state connected_clients].
  destruct (iter_tick_fields (2 * length (connected_clients st)) st) as (Ha & Hc & _ & _ & _).
  rewrite Ha, Hc.
  destruct (prune_failed_sends (world st) (clock st) (connected_clients st) Hnd) as [Hsub Hmem].
  repeat split; try assumption; apply Hmem; assumption.
Qed.

Lemma broadcast_drops_failed_clients_witness :
  let o := broadcast "state" (PState initial_automation_state)
             (three_clients (dead_clients_world (Nat.eqb 2))) in
  res o = Ok tt /\ events o = [EvBroadcast "state" (PState initial_automation_state)] /\
  automation_state (final o) = initial_automation_state /\
  sublist (connected_clients (final o)) [1; 2; 3] /\
  forall k ws, [1; 2; 3] !! k = Some ws ->
    (ws ∈ connected_clients (final o) <->
     ws_send_text (dead_clients_world (Nat.eqb 2)) (0 + 2 * k + 1) ws = None).
Proof.
  apply (broadcast_drops_failed_clients "state" (PState initial_automation_state)
           (three_clients (dead_clients_world (Nat.eqb 2)))).
  - intros t. reflexivity.
  - cbn. repeat (apply NoDup_cons; split; [rewrite ?elem_of_cons, ?elem_of_nil; lia |]).
    apply NoDup_nil_2.
Defined.

(** ** The settings sheet *)

Lemma read_config_app (rows more : list (list string)) (config : gmap string string) :
  Forall readable rows ->
  read_config (rows ++ more) config = read_config more (read_config rows config).
Proof.
  intros H. revert config. induction H as [| cells rows Hc _ IH]; intros config.
  - reflexivity.
  - cbn [app read_config].
    destruct cells as [| k [| v tail]]; cbn [lookup list_lookup].
    + destruct Hc as [Hc | Hc]; [cbn in Hc; lia | discriminate].
    + destruct Hc as [Hc | Hc]; [cbn in Hc; lia |]. inversion Hc; subst k. cbn. apply IH.
    + destruct (PyStr.truthy k); [destruct (PyStr.truthy v) |]; apply IH.
Qed.

(** X2.  The rows of the settings sheet are read until the first row that
    is too short for [row[0] and row[1]]: an empty row, or a row of one
    non-empty cell.  That row and every row after it are ignored, and the
    settings read before it are kept. *)
Theorem settings_after_short_row_are_ignored
    (rows rest : list (list string)) (bad : list string) (config : gmap string string) :
  Forall readable rows ->
  bad = [] \/ (exists k, bad = [k] /\ k <> "") ->
  read_config (rows ++ bad :: rest) config = read_config rows config.
Proof.
  intros Hrows Hbad. rewrite read_config_app by exact Hrows.
  destruct Hbad as [-> | (k & -> & Hk)]; cbn [read_config lookup list_lookup].
  - reflexivity.
  - destruct (PyStr.truthy k) eqn:Ht; [reflexivity |].
    apply truthy_false in Ht. contradiction.
Qed.

Lemma settings_after_short_row_are_ignored_witness :
  read_config ([["a"; "1"]; [""]] ++ ["b"] :: [["a"; "2"]]) ∅ =
  read_config [["a"; "1"]; [""]] ∅.
Proof.
  apply settings_after_short_row_are_ignored.
  - constructor; [left; cbn; lia |].
    constructor; [right; reflexivity | constructor].
  - right. exists "b". split; [reflexivity | discriminate].
Defined.

Lemma find_names_last (key : string) (rows : list (list string)) (cells : list string) :
  find (names key) (rev (rows ++ [cells])) =
  if names key cells then Some cells else find (names key) (rev rows).
Proof. rewrite rev_app_distr. reflexivity. Qed.

(** X3.  Among the rows of the settings sheet, all of them readable, the
    last row that sets a key decides its value, which is that row's
    second cell without the surrounding whitespace; a row with an empty
    key or value cell sets nothing; and a key that no row sets keeps the
    value it had, so that it is absent when the reading starts from the
    empty dict. *)
Theorem last_settings_row_wins
    (rows : list (list string)) (config : gmap string string) (key : string) :
  Forall readable rows ->
  read_config rows config !! key =
  match find (names key) (rev rows) with
  | Some cells => PyStr.strip <$> cells !! 1
  | None => config !! key
  end.
Proof.
  induction rows as [| cells rows IH] using rev_ind; intros H.
  - reflexivity.
  - apply Forall_app in H as [Hrows Hcells].
    rewrite read_config_app by exact Hrows. rewrite find_names_last.
    specialize (IH Hrows).
    destruct cells as [| k [| v tail]]; cbn [read_config lookup list_lookup names].
    + exact IH.
    + destruct (PyStr.truthy k); exact IH.
    + destruct (PyStr.truthy k); cbn [andb]; [| exact IH].
      destruct (PyStr.truthy v); cbn [andb]; [| exact IH].
      destruct (String.eqb_spec (PyStr.strip k) key) as [-> | Hne].
      * rewrite lookup_insert_eq. reflexivity.
      * rewrite lookup_insert_ne by exact Hne. exact IH.
Qed.

Lemma last_settings_row_wins_witness :
  read_config [["a"; " 1 "]; ["b"; ""]; [" a"; "2"]; [""; "3"]] ∅ !! "a" = Some "2" /\
  read_config [["a"; " 1 "]; ["b"; ""]; [" a"; "2"]; [""; "3"]] ∅ !! "b" = None.
Proof.
  assert (H : Forall readable [["a"; " 1 "]; ["b"; ""]; [" a"; "2"]; [""; "3"]])
    by (repeat (constructor; [left; cbn; lia |]); constructor).
  split.
  - rewrite (last_settings_row_wins _ ∅ "a" H). reflexivity.
  - rewrite (last_settings_row_wins _ ∅ "b" H). reflexivity.
Defined.

(** ** Reading the sheet *)

(** What [get_sheet_data] returns and does, by the answers of the world. *)
Lemma get_sheet_data_run (url : string) (st : St) :
  let o := get_sheet_data url st in
  res o =
    match open_sheet (world st) (clock st) url with
    | Some e => Raise e
    | None =>
        match data_values (world st) (S (clock st)) with
        | Raise e => Raise e
        | Ok records =>
            if length records <? 4 then Ok ([], ∅)
            else match read_items 4 (skipn 3 records) with
                 | Raise e => Raise e
                 | Ok items =>
                     Ok (items,
                         match config_values (world st) (S (S (clock st))) with
                         | Ok rows => read_config (skipn 3 rows) ∅
                         | Raise _ => ∅
                         end)
                 end
        end
    end /\
  events o = [EvReadSheet url] /\
  automation_state (final o) = automation_state st /\
  connected_clients (final o) = connected_clients st /\
  world (final o) = world st.
Proof.
  cbv zeta. unfold get_sheet_data.
  rewrite run_bind, run_emit. cbn [res final events].
  rewrite run_ask_eq.
  destruct (open_sheet (world st) (clock st) url) as [e |]; cbn [raise_if].
  { rewrite run_bind, run_raise. cbn. repeat split. }
  rewrite run_ret_eq, run_ask_eq. cbn [tick world clock].
  destruct (data_values (world st) (S (clock st))) as [records | e].
  2: { rewrite run_bind, run_lift. cbn. repeat split. }
  rewrite run_lift_ok_eq.
  destruct (length records <? 4).
  { rewrite run_ret. cbn. repeat split. }
  destruct (read_items 4 (skipn 3 records)) as [items | e].
  2: { rewrite run_bind, run_lift. cbn. repeat split. }
  rewrite run_lift_ok_eq, run_ask_eq, run_ret. cbn. repeat split.
Qed.

(** X4.  A settings sheet that is missing or cannot be read does not fail
    the read: the records are returned with an empty settings dict, and
    then every setting takes its default. *)
Theorem unreadable_settings_mean_defaults (url : string) (st : St)
    (records : list (list string)) (items : list Item) (e : exn) :
  open_sheet (world st) (clock st) url = None ->
  data_values (world st) (S (clock st)) = Ok records ->
  4 <= length records ->
  read_items 4 (skipn 3 records) = Ok items ->
  config_values (world st) (S (S (clock st))) = Raise e ->
  exists config,
    res (get_sheet_data url st) = Ok (items, config) /\
    (forall key dflt, config_int config key dflt = Ok dflt) /\
    (forall key dflt, config_str config key dflt = dflt).
Proof.
  intros Hopen Hdata Hlen Hitems Hconfig.
  destruct (get_sheet_data_run url st) as (Hres & _).
  rewrite Hopen, Hdata, Hitems, Hconfig in Hres.
  destruct (Nat.ltb_spec (length records) 4) as [Hlt | _]; [lia |].
  exists ∅. split; [exact Hres |]. split; intros key dflt.
  - unfold config_int. rewrite lookup_empty. reflexivity.
  - unfold config_str. rewrite lookup_empty. reflexivity.
Qed.

Lemma unreadable_settings_mean_defaults_witness :
  exists config,
    res (get_sheet_data sample_url (boot no_settings_world)) = Ok ([sample_item], config) /\
    (forall key dflt, config_int config key dflt = Ok dflt) /\
    (forall key dflt, config_str config key dflt = dflt).
Proof.
  apply (unreadable_settings_mean_defaults sample_url (boot no_settings_world)
           (sheet_header ++ [row_ok]) [sample_item] (Exception "WorksheetNotFound: 설정")).
  - reflexivity.
  - reflexivity.
  - cbn. lia.
  - vm_compute. reflexivity.
  - reflexivity.
Defined.

(** X5.  [connect_sheet] answers with the records and their number, or
    fails with the HTTP error 400 whose detail is the text of whatever
    [get_sheet_data] raised -- the error 500 of missing credentials
    included.  It reads the sheet once, broadcasts nothing and leaves
    [automation_state] and the client list as they were. *)
Theorem connect_sheet_fails_with_400 (url : string) (st : St) :
  let o := connect_sheet url st in
  ((exists resp,
      res o = Ok resp /\ sheet_success resp = true /\
      sheet_total_items resp = length (sheet_items resp) /\
      res (get_sheet_data url st) = Ok (sheet_items resp, sheet_config resp)) \/
   (exists e,
      res (get_sheet_data url st) = Raise e /\
      res o = Raise (HTTPException 400 (str_exn e)))) /\
  (forall detail,
     open_sheet (world st) (clock st) url = Some (HTTPException 500 detail) ->
     res o = Raise (HTTPException 400 ("500: " +:+ detail))) /\
  events o = [EvReadSheet url] /\
  automation_state (final o) = automation_state st /\
  connected_clients (final o) = connected_clients st.
Proof.
  cbv zeta. destruct (get_sheet_data_run url st) as (Hres & Hev & Hst & Hcl & _).
  assert (Hcase :
    match res (get_sheet_data url st) with
    | Ok (items, config) =>
        connect_sheet url st =
        {| res := Ok {| sheet_success := true; sheet_total_items := length items;
                        sheet_items := items; sheet_config := config |};
           final := final (get_sheet_data url st);
           events := events (get_sheet_data url st) |}
    | Raise e =>
        connect_sheet url st =
        {| res := Raise (HTTPException 400 (str_exn e));
           final := final (get_sheet_data url st);
           events := events (get_sheet_data url st) |}
    end).
  { unfold connect_sheet.
    destruct (res (get_sheet_data url st)) as [[items config] | e] eqn:Hg.
    - match goal with |- try_except ?b ?h st = _ =>
        assert (Hb : b st =
          {| res := Ok {| sheet_success := true; sheet_total_items := length items;
                          sheet_items := items; sheet_config := config |};
             final := final (get_sheet_data url st);
             events := events (get_sheet_data url st) |})
      end.
      { rewrite (run_bind_ok _ _ st _ Hg). cbv iota beta. rewrite run_ret.
        cbn [res final events]. rewrite app_nil_r. reflexivity. }
      rewrite res_try_except_ok
        with (a := {| sheet_success := true; sheet_total_items := length items;
                      sheet_items := items; sheet_config := config |})
        by (rewrite Hb; reflexivity).
      exact Hb.
    - rewrite run_try_except_raise with (e := e)
        by (rewrite (run_bind_raise _ _ st _ Hg); reflexivity).
      rewrite (run_bind_raise _ _ st _ Hg). cbn [res final events].
      rewrite run_raise. cbn [res final events]. rewrite app_nil_r. reflexivity. }
  split; [| split].
  - destruct (res (get_sheet_data url st)) as [[items config] | e]; rewrite Hcase; cbn [res].
    + left. eexists. repeat split.
    + right. exists e. split; reflexivity.
  - intros detail Hopen. rewrite Hopen in Hres. rewrite Hres in Hcase. rewrite Hcase.
    reflexivity.
  - destruct (res (get_sheet_data url st)) as [[items config] | e]; rewrite Hcase;
      cbn [res final events]; repeat split; assumption.
Qed.

(** ** The outcome of a submission *)

Lemma yields_ret {A} (Q : A -> Prop) (a : A) : Q a -> yields Q (mret a).
Proof. intros H st b Hb. rewrite run_ret in Hb. inversion Hb; subst. exact H. Qed.

Lemma yields_bind {A B} (Q : B -> Prop) (m : M A) (f : A -> M B) :
  (forall a, yields Q (f a)) -> yields Q (m ≫= f).
Proof.
  intros H st b Hb. apply res_bind_inv in Hb as (a & _ & Hb). eapply H, Hb.
Qed.

Lemma yields_try_except {A} (Q : A -> Prop) (body : M A) (handler : exn -> M A) :
  yields Q body -> (forall e, yields Q (handler e)) -> yields Q (try_except body handler).
Proof.
  intros Hb Hh st a Ha. destruct (res (body st)) as [a' | e] eqn:E.
  - rewrite (res_try_except_ok body handler st a' E) in Ha. eapply Hb. exact Ha.
  - rewrite (run_try_except_raise body handler st e E) in Ha. cbn [res] in Ha.
    eapply Hh, Ha.
Qed.

Lemma yields_or_fail (Q : bool * string -> Prop) step msg rest :
  Q (false, msg) -> yields Q rest -> yields Q (or_fail step msg rest).
Proof.
  intros Hm Hr. unfold or_fail. apply yields_bind. intros [|]; [exact Hr |].
  apply yields_ret, Hm.
Qed.

Ltac yields_step :=
  lazymatch goal with
  | |- yields _ (mret _) => apply yields_ret
  | |- yields _ (or_fail _ _ _) => apply yields_or_fail
  | |- yields _ (_ ≫= _) => apply yields_bind; intros ?
  | |- yields _ (if ?b then _ else _) => destruct b
  | |- classified _ => reflexivity
  end.

Lemma yields_after_navigation item config timeout :
  yields classified (after_navigation item config timeout).
Proof. unfold after_navigation. cbv zeta. repeat yields_step. Qed.

Lemma yields_process_single_item item config :
  yields classified (process_single_item item config).
Proof.
  unfold process_single_item. apply yields_bind. intros seconds.
  apply yields_try_except.
  - unfold submission_steps. cbv zeta. do 3 (apply yields_bind; intros ?).
    apply yields_after_navigation.
  - intros e. destruct (is_PlaywrightTimeout e); apply yields_ret; reflexivity.
Qed.

(** X6.  [process_single_item] ends in one of three ways: it returns
    success with the text of completion; it returns failure with a
    reason that begins with the cross mark, whatever the page raised; or
    it raises the [ValueError] of a malformed timeout setting, before it
    has done anything. *)
Theorem submission_outcome_is_classified (item : Item) (config : gmap string string)
    (st : St) :
  match res (process_single_item item config st) with
  | Ok (true, msg) => msg = msg_done
  | Ok (false, msg) => String.prefix "❌" msg = true
  | Raise e =>
      config_int config key_timeout 10 = Raise e /\
      events (process_single_item item config st) = [] /\
      final (process_single_item item config st) = st
  end.
Proof.
  pose proof (process_single_item_res item config st) as Hres.
  destruct (res (process_single_item item config st)) as [[ok msg] | e] eqn:E.
  - pose proof (yields_process_single_item item config st (ok, msg) E) as Hc.
    destruct ok; exact Hc.
  - destruct (config_int config key_timeout 10) as [z | e'].
    + destruct Hres as [r Hr]. discriminate.
    + destruct Hres as (Hr & Hev & Hfin). inversion Hr; subst e'. repeat split; assumption.
Qed.

(** ** A retry budget of zero *)

Lemma filter_nil_In {A} (P : A -> bool) (l : list A) (x : A) :
  List.filter P l = [] -> In x l -> P x = false.
Proof.
  intros H Hin. destruct (P x) eqn:E; [| reflexivity].
  assert (Hx : In x (List.filter P l)) by (apply List.filter_In; split; assumption).
  rewrite H in Hx. destruct Hx.
Qed.


Lemma ambient_no_cell_update : Ambient (without is_cell_update).
Proof. apply ambient_without. reflexivity. Qed.




(** ** Stop requests *)

#[global] Instance stop_stays_frame : Frame stop_stays.
Proof. split; unfold stop_stays; auto. Qed.

#[global] Instance stop_stays_ambient : Ambient stop_stays.
Proof. split; unfold stop_stays; intros; cbn; auto. Qed.

#[global] Instance stop_stays_tolerant : Tolerant stop_stays.
Proof. split. unfold stop_stays. auto. Qed.

Ltac stays_step :=
  lazymatch goal with
  | |- stop_stays _ [] (on_state _ _) => let H := fresh in intros H; exact H
  | |- stop_stays _ [_] _ => let H := fresh in intros H; exact H
  | |- respects _ (add_log _ _) => apply (respects_log stop_stays)
  | |- respects _ broadcast_state => apply (respects_broadcast_state stop_stays)
  | |- respects _ (update_sheet_result _ _ _ _) =>
      apply (respects_update_sheet_result stop_stays)
  | |- respects _ (attempt_loop _ _ _ _ _ _) => apply (respects_attempts stop_stays)
  | |- respects _ (pacing _ _ _) => apply (respects_pacing stop_stays)
  | |- _ => respects_step
  end.

Ltac stays_auto := repeat (first [assumption | stays_step]).

Lemma stays_record_skip url item missing :
  respects stop_stays (record_skip url item missing).
Proof. unfold record_skip. stays_auto. Qed.

Lemma stays_record_attempt url config delay max_retry item :
  respects stop_stays (record_attempt url config delay max_retry item).
Proof. unfold record_attempt. stays_auto. Qed.

Lemma stays_record_announce total i item :
  respects stop_stays (record_announce total i item).
Proof. unfold record_announce. stays_auto. Qed.

Lemma stays_record_body url config delay max_retry total i item :
  respects stop_stays (record_body url config delay max_retry total i item).
Proof.
  unfold record_body.
  pose proof (stays_record_attempt url config delay max_retry item).
  pose proof (stays_record_skip url item (missing_fields item)).
  pose proof (stays_record_announce total i item).
  stays_auto.
Qed.

(** The iteration of a record that finds the stop flag set. *)
Lemma record_body_stopped url config delay max_retry total i item st :
  should_stop (automation_state st) = true ->
  record_body url config delay max_retry total i item st =
  (add_log "⛔ 사용자에 의해 중지되었습니다." "warn";; mret Break) st.
Proof. intros H. unfold record_body. rewrite run_read_state_eq, H. reflexivity. Qed.

(** What the loop does when it reaches a record with the stop flag
    set. *)
Lemma stopped_loop url config delay max_retry total i item rest st :
  should_stop (automation_state st) = true ->
  let o := record_loop url config delay max_retry total i (item :: rest) st in
  res o = Ok tt /\
  started (events o) = 0 /\
  List.filter is_page_event (events o) = [] /\
  List.filter is_cell_update (events o) = [] /\
  tallies (final o) = tallies st /\
  current_item (automation_state (final o)) = current_item (automation_state st) /\
  should_stop (automation_state (final o)) = true /\
  exists e, In (EvBroadcast "log" (PLog e)) (events o) /\
            level e = "warn" /\ message e = "⛔ 사용자에 의해 중지되었습니다.".
Proof.
  intros Hstop. cbv zeta. cbn [record_loop].
  set (m := add_log "⛔ 사용자에 의해 중지되었습니다." "warn").
  assert (Hbody : record_body url config delay max_retry total i item st =
                  {| res := Ok Break; final := final (m st); events := events (m st) |}).
  { rewrite record_body_stopped by exact Hstop. fold m.
    rewrite run_seq by apply safe_add_log. rewrite run_ret. cbn [res final events].
    rewrite app_nil_r. reflexivity. }
  rewrite run_bind_ok with (a := Break) by (rewrite Hbody; reflexivity).
  rewrite Hbody. cbn [res final events]. rewrite run_ret. cbn [res final events].
  rewrite app_nil_r.
  pose proof ambient_no_cell_update as Hamb.
  assert (Hcur : Ambient (kept (fun s => current_item (automation_state s))))
    by (split; reflexivity).
  split; [reflexivity |].
  split; [apply started_nil_of_respects, (respects_log (without is_progress)) |].
  split; [apply (respects_add_log (without is_page_event)); reflexivity |].
  split; [apply (respects_add_log (without is_cell_update)); reflexivity |].
  split; [apply (respects_log (kept tallies)) |].
  split; [apply (respects_add_log (kept (fun s => current_item (automation_state s))));
          reflexivity |].
  split; [apply (respects_log stop_stays); exact Hstop |].
  destruct (add_log_events "⛔ 사용자에 의해 중지되었습니다." "warn" st)
    as (e & more & He & Hmsg & Hlvl).
  exists e. split; [| split; [exact Hlvl | exact Hmsg]].
  unfold m. rewrite He. left. reflexivity.
Qed.



(** X9.  A stop request always succeeds: it sets the stop flag, logs the
    warning and leaves the tallies and the running flag as they are.  No
    step of the record loop clears the flag: when the skip branch, the
    attempts with their write-back, the pacing or a whole iteration
    begin with the flag set, they end with the flag set. *)
Theorem stop_request_sets_a_lasting_flag (st : St) :
  let o := stop_automation st in
  res o = Ok {| resp_success := true; resp_message := None |} /\
  should_stop (automation_state (final o)) = true /\
  tallies (final o) = tallies st /\
  running (final o) = running st /\
  (exists e, In (EvBroadcast "log" (PLog e)) (events o) /\
             level e = "warn" /\ message e = stop_message) /\
  (forall url item missing, respects stop_stays (record_skip url item missing)) /\
  (forall url config delay max_retry item,
     respects stop_stays (record_attempt url config delay max_retry item)) /\
  (forall delay total i, respects stop_stays (pacing delay total i)) /\
  (forall url config delay max_retry total i item,
     respects stop_stays (record_body url config delay max_retry total i item)).
Proof.
  cbv zeta.
  assert (Hlog : safe (add_log_with (mret tt) stop_message "warn"))
    by apply safe_add_log_with, safe_ret.
  assert (Hrun : stop_automation st =
    {| res := Ok {| resp_success := true; resp_message := None |};
       final := final (add_log_with (mret tt) stop_message "warn"
                         (on_state (with_should_stop true) st));
       events := events (add_log_with (mret tt) stop_message "warn"
                           (on_state (with_should_stop true) st)) |}).
  { unfold stop_automation. rewrite run_update_state_eq.
    rewrite run_seq by exact Hlog. rewrite run_ret. cbn [res final events].
    rewrite app_nil_r. reflexivity. }
  rewrite Hrun. cbn [res final events].
  split; [reflexivity |].
  split; [apply (respects_add_log_with stop_stays);
          [apply (respects_ret stop_stays) | intros s t H; exact H | reflexivity] |].
  split.
  { transitivity (tallies (on_state (with_should_stop true) st)); [| reflexivity].
    apply (respects_add_log_with (kept tallies));
      [apply (respects_ret (kept tallies)) | reflexivity]. }
  split.
  { transitivity (running (on_state (with_should_stop true) st)); [| reflexivity].
    apply (respects_add_log_with (kept running));
      [apply (respects_ret (kept running)) | reflexivity]. }
  split.
  - unfold add_log_with. rewrite run_ask_eq, run_update_state_eq, broadcast_with_events.
    eexists. split; [left; reflexivity |]. split; reflexivity.
  - split; [intros; apply stays_record_skip |].
    split; [intros; apply stays_record_attempt |].
    split; [intros; apply (respects_pacing stop_stays) |].
    intros; apply stays_record_body.
Qed.

Lemma cell_updates_app (l1 l2 : list Event) :
  List.filter is_cell_update (l1 ++ l2) =
  List.filter is_cell_update l1 ++ List.filter is_cell_update l2.
Proof. apply List.filter_app. Qed.

Lemma no_page_no_goto (l : list Event) :
  List.filter is_page_event l = [] -> List.filter is_goto l = [].
Proof.
  induction l as [| ev l IH]; [reflexivity |]. cbn [List.filter].
  destruct ev; cbn [is_goto is_page_event]; intros H; try discriminate; apply IH; exact H.
Qed.

(** X10.  A stop request takes effect at the next record: when the
    iteration of a record ends with the stop flag set, the loop starts no
    further record, so that the records started, the attempts made, the
    cells written and the tallies of the whole loop are those of that
    iteration. *)
Theorem stop_takes_effect_at_next_record (url : string) (config : gmap string string)
    (delay max_retry : Z) (total i : nat) (item : Item) (rest : list Item) (st : St) :
  let o1 := record_body url config delay max_retry total i item st in
  let o := record_loop url config delay max_retry total i (item :: rest) st in
  should_stop (automation_state (final o1)) = true ->
  started (events o) = started (events o1) /\
  attempts_made (events o) = attempts_made (events o1) /\
  List.filter is_cell_update (events o) = List.filter is_cell_update (events o1) /\
  tallies (final o) = tallies (final o1).
Proof.
  cbv zeta. intros Hstop. cbn [record_loop].
  set (body := record_body url config delay max_retry total i item) in *.
  destruct (res (body st)) as [[] | e] eqn:E.
  - rewrite (run_bind_ok _ _ st _ E). cbn [res final events].
    destruct rest as [| next rest].
    + cbn [record_loop]. rewrite run_ret. cbn [res final events]. rewrite app_nil_r.
      repeat split.
    + destruct (stopped_loop url config delay max_retry total (S i) next rest
                  (final (body st)) Hstop)
        as (_ & Hstarted & Hpage & Hcells & Htallies & _).
      rewrite started_app, attempts_made_app, cell_updates_app, Hstarted, Hcells, Htallies.
      rewrite app_nil_r, Nat.add_0_r.
      repeat split. unfold attempts_made at 2.
      rewrite (no_page_no_goto _ Hpage). cbn. lia.
  - rewrite (run_bind_ok _ _ st _ E). cbn [res final events]. rewrite run_ret.
    cbn [res final events]. rewrite app_nil_r. repeat split.
  - rewrite (run_bind_raise _ _ st _ E). cbn [res final events]. repeat split.
Qed.

Lemma stop_takes_effect_at_next_record_witness :
  let o1 := record_body sample_url ∅ 3 3 2 0 sample_item (boot stopped_world) in
  let o := record_loop sample_url ∅ 3 3 2 0 (sample_item :: [sample_item])
             (boot stopped_world) in
  started (events o) = started (events o1) /\
  attempts_made (events o) = attempts_made (events o1) /\
  List.filter is_cell_update (events o) = List.filter is_cell_update (events o1) /\
  tallies (final o) = tallies (final o1).
Proof.
  apply (stop_takes_effect_at_next_record sample_url ∅ 3 3 2 0 sample_item [sample_item]
           (boot stopped_world)).
  vm_compute. reflexivity.
Defined.

(** ** The order of the records *)

Lemma progress_of_app (l1 l2 : list Event) :
  progress_of (l1 ++ l2) = progress_of l1 ++ progress_of l2.
Proof. apply flat_map_app. Qed.

Lemma progress_of_quiet (evs : list Event) :
  List.filter is_progress evs = [] -> progress_of evs = [].
Proof.
  induction evs as [| ev evs IH]; [reflexivity |].
  cbn [List.filter progress_of flat_map].
  destruct ev as [event [] | | | | | | | | | | | | |]; cbn [is_progress app];
    intros H; try discriminate; apply IH; exact H.
Qed.

Lemma progress_of_respects {A} (m : M A) (st : St) :
  respects (without is_progress) m -> progress_of (events (m st)) = [].
Proof. intros H. apply progress_of_quiet, H. Qed.

Lemma announce_progress total i item st :
  progress_of (events (record_announce total i item st)) = [(i + 1, total, item)].
Proof.
  unfold record_announce.
  rewrite events_seq by apply safe_update_state.
  rewrite events_update_state, app_nil_l, final_update_state.
  rewrite events_seq by apply safe_broadcast.
  rewrite progress_of_app.
  rewrite (progress_of_respects (_ ≫= _))
    by (apply (respects_bind (without is_progress)); [| intros _];
        apply (respects_log (without is_progress))).
  unfold broadcast. rewrite broadcast_with_events.
  cbn [progress_of flat_map app].
  match goal with |- _ :: flat_map _ (events (?m ?s)) ++ [] = _ =>
    assert (respects (without is_progress) m) as Hr by respects_auto;
    pose proof (progress_of_quiet _ (Hr s)) as Hq
  end.
  unfold progress_of in Hq. rewrite Hq. reflexivity.
Qed.

Lemma body_progress url config delay max_retry total i item st :
  should_stop (automation_state st) = false ->
  progress_of (events (record_body url config delay max_retry total i item st)) =
  [(i + 1, total, item)].
Proof.
  intros Hstop. rewrite (record_body_running _ _ _ _ _ _ _ _ Hstop).
  rewrite events_seq by apply safe_record_announce.
  rewrite progress_of_app, announce_progress.
  rewrite progress_of_respects; [reflexivity |].
  destruct (missing_fields item).
  - apply (respects_bind (without is_progress));
      [apply respects_attempt_no_progress | intros _].
    apply (respects_bind (without is_progress));
      [apply (respects_pacing (without is_progress)) | intros _].
    apply (respects_ret (without is_progress)).
  - apply (respects_bind (without is_progress));
      [apply respects_skip_no_progress | intros _].
    apply (respects_ret (without is_progress)).
Qed.

(** X11.  The loop announces the records in the order of the list,
    without gap or repetition: its progress broadcasts are those of a
    prefix of the records, the record at index [k] with the position
    [i + k + 1] and with the total that the loop was given. *)
Theorem records_are_announced_in_order (url : string) (config : gmap string string)
    (delay max_retry : Z) (total i : nat) (items : list Item) (st : St) :
  exists n,
    n <= length items /\
    progress_of (events (record_loop url config delay max_retry total i items st)) =
    imap (fun k item => (i + k + 1, total, item)) (take n items).
Proof.
  revert i st. induction items as [| item rest IH]; intros i st.
  - exists 0. split; [lia | reflexivity].
  - cbn [record_loop].
    destruct (should_stop (automation_state st)) eqn:Hstop.
    + exists 0. split; [lia |].
      destruct (stopped_loop url config delay max_retry total i item rest st Hstop)
        as (_ & Hstarted & _).
      cbn [record_loop] in Hstarted. cbn [take imap].
      apply progress_of_quiet. unfold started in Hstarted.
      apply length_zero_iff_nil in Hstarted. exact Hstarted.
    + pose proof (body_progress url config delay max_retry total i item st Hstop) as Hb.
      destruct (res (record_body url config delay max_retry total i item st))
        as [[] | e] eqn:E.
      * rewrite (run_bind_ok _ _ st _ E). cbn [events].
        destruct (IH (S i) (final (record_body url config delay max_retry total i item st)))
          as (n & Hn & Hrest).
        exists (S n). split; [cbn; lia |].
        rewrite progress_of_app, Hb, Hrest. cbn [take imap app].
        rewrite Nat.add_0_r. f_equal.
        apply imap_ext. intros k it _. cbn. f_equal. f_equal. lia.
      * rewrite (run_bind_ok _ _ st _ E). cbn [events]. rewrite run_ret. cbn [events].
        rewrite app_nil_r. exists 1. split; [cbn; lia |].
        rewrite Hb. cbn. rewrite Nat.add_0_r. reflexivity.
      * rewrite (run_bind_raise _ _ st _ E). cbn [events].
        exists 1. split; [cbn; lia |].
        rewrite Hb. cbn. rewrite Nat.add_0_r. reflexivity.
Qed.

(** ** The cells that a run writes *)

#[global] Instance ambient_no_stray (url : string) : Ambient (without (stray_update url)).
Proof. apply ambient_without. reflexivity. Qed.

#[global] Instance lenient_no_stray (url : string) : Lenient (without (stray_update url)).
Proof. apply lenient_without; [intros [] | |]; reflexivity || discriminate. Qed.

Lemma result_cell_ok (url : string) (r c : nat) (v : string) (st : St) :
  4 <= r -> c = 7 \/ c = 8 ->
  without (stray_update url) st [EvUpdateCell url r c v] st.
Proof.
  intros Hr Hc. unfold without. cbn [List.filter stray_update].
  rewrite String.eqb_refl. apply Nat.leb_le in Hr. rewrite Hr.
  destruct Hc as [-> | ->]; reflexivity.
Qed.

Lemma stray_update_sheet_result url r stat ts :
  4 <= r -> respects (without (stray_update url)) (update_sheet_result url r stat ts).
Proof.
  intros Hr. unfold update_sheet_result. respects_auto;
    apply result_cell_ok; [exact Hr | left; reflexivity | exact Hr | right; reflexivity].
Qed.

Ltac cells_step url :=
  lazymatch goal with
  | |- respects _ (update_sheet_result _ _ _ _) =>
      apply stray_update_sheet_result; assumption
  | |- respects _ (attempt_loop _ _ _ _ _ _) =>
      apply (respects_attempt_loop (without (stray_update url))); intros; reflexivity
  | |- _ => respects_step
  end.

Ltac cells_auto url :=
  repeat (first [assumption | cells_step url]); try solve [frame_leaf].

Lemma stray_record_body url config delay max_retry total i item :
  4 <= row item ->
  respects (without (stray_update url))
    (record_body url config delay max_retry total i item).
Proof.
  intros Hr.
  unfold record_body, record_announce, record_skip, record_attempt, pacing.
  cells_auto url.
Qed.

Lemma stray_record_loop url config delay max_retry total i items :
  Forall (fun item => 4 <= row item) items ->
  respects (without (stray_update url))
    (record_loop url config delay max_retry total i items).
Proof.
  intros H. revert i. induction H as [| item rest Hitem _ IH]; intros i; cbn [record_loop].
  - apply (respects_ret (without (stray_update url))).
  - apply (respects_bind (without (stray_update url)));
      [apply stray_record_body, Hitem | intros [|]];
      [apply IH | apply (respects_ret (without (stray_update url)))].
Qed.

Lemma reader_rows_from_4 url st items config :
  res (get_sheet_data url st) = Ok (items, config) ->
  Forall (fun item => 4 <= row item) items.
Proof.
  intros H. apply get_sheet_data_res in H as (records & _ & H).
  destruct (length records <? 4).
  - destruct H as [-> _]. constructor.
  - destruct H as [H _]. apply read_items_spec in H as (Hrows & _).
    apply List.Forall_forall. intros item Hin.
    apply (in_map row) in Hin. rewrite Hrows in Hin. apply in_seq in Hin. lia.
Qed.

Lemma stray_run_try url start_row end_row :
  respects (without (stray_update url)) (run_try url start_row end_row).
Proof.
  intros st. unfold run_try. rewrite run_bind.
  destruct (get_sheet_data_run url st) as (_ & Hev & _).
  destruct (res (get_sheet_data url st)) as [[items config] | e] eqn:E; cbn [events final].
  2: { rewrite Hev. reflexivity. }
  pose proof (reader_rows_from_4 url st items config E) as Hrows.
  apply (frame_app (R := without (stray_update url))) with (s2 := final (get_sheet_data url st)).
  { rewrite Hev. reflexivity. }
  destruct items as [| it items].
  { apply (respects_add_log (without (stray_update url))). reflexivity. }
  cbv zeta.
  set (selected := slice (it :: items) _ _).
  assert (Hsel : Forall (fun item => 4 <= row item) selected)
    by (unfold selected, slice; apply Forall_take, Forall_drop, Hrows).
  clearbody selected.
  match goal with |- without _ ?s (events (?m ?s)) (final (?m ?s)) =>
    assert (Hr : respects (without (stray_update url)) m); [| apply Hr]
  end.
  pose proof (stray_record_loop url config) as Hloop.
  repeat first
    [ lazymatch goal with
      | |- respects _ (record_loop _ _ _ _ _ _ _) => apply Hloop, Hsel
      end
    | respects_step ];
  try solve [frame_leaf].
Qed.

(** X12.  Whatever the sheet, the settings and the page do, every cell
    that a run writes is a result cell of the sheet it was started on:
    column G or H of a row from the fourth on.  The three header rows,
    the data columns and other sheets are never written. *)
Theorem run_writes_result_cells_only (url : string) (start_row end_row : Z) (st : St)
    (u : string) (r c : nat) (v : string) :
  In (EvUpdateCell u r c v) (events (run_automation url start_row end_row st)) ->
  u = url /\ 4 <= r /\ (c = 7 \/ c = 8).
Proof.
  intros Hin.
  assert (Hr : respects (without (stray_update url)) (run_automation url start_row end_row)).
  { unfold run_automation, run_except, run_finally.
    pose proof (stray_run_try url start_row end_row).
    respects_auto. }
  pose proof (filter_nil_In _ _ _ (Hr st) Hin) as H. cbn [stray_update] in H.
  apply negb_false_iff in H. apply andb_true_iff in H as [H Hc].
  apply andb_true_iff in H as [Hu Hrow].
  apply String.eqb_eq in Hu. apply Nat.leb_le in Hrow.
  apply orb_true_iff in Hc. rewrite !Nat.eqb_eq in Hc. auto.
Qed.

Lemma run_writes_result_cells_only_witness :
  In (EvUpdateCell sample_url 4 7 msg_done)
     (events (run_automation sample_url 1 0 (boot quiet_world))) /\
  (sample_url = sample_url /\ 4 <= 4 /\ (7 = 7 \/ 7 = 8)).
Proof.
  assert (H : In (EvUpdateCell sample_url 4 7 msg_done)
                 (events (run_automation sample_url 1 0 (boot quiet_world)))).
  { vm_compute. repeat (first [left; reflexivity | right]). }
  split; [exact H |].
  exact (run_writes_result_cells_only sample_url 1 0 (boot quiet_world)
           sample_url 4 7 msg_done H).
Defined.

(** ** The status written for an attempted record *)




#[global] Instance lenient_no_cell_update : Lenient (without is_cell_update).
Proof. apply lenient_without; [intros [] | |]; reflexivity || discriminate. Qed.



(** ** The log buffer during a run *)

#[global] Instance log_bounded_frame : Frame log_bounded.
Proof. split; unfold log_bounded; auto. Qed.

Lemma log_append_bound (buf : list LogEntry) (e : LogEntry) :
  length (log_append buf e) <= 200.
Proof. rewrite log_append_last_n, last_n_length. lia. Qed.

Lemma bounded_ask {A} (f : World -> nat -> A) : respects log_bounded (ask f).
Proof.
  unfold ask. apply (respects_bind log_bounded); [apply (respects_gets log_bounded) |].
  intros a. apply (respects_bind log_bounded);
    [| intros; apply (respects_ret log_bounded)].
  apply (respects_modify log_bounded). intros st H. exact H.
Qed.

Lemma bounded_send_all (pause : M unit) (clients : list WebSocket) :
  respects log_bounded pause -> respects log_bounded (send_all pause clients).
Proof.
  intros Hp. induction clients as [| ws rest IH]; cbn [send_all].
  - apply (respects_ret log_bounded).
  - apply (respects_bind log_bounded); [exact Hp | intros _].
    apply (respects_bind log_bounded); [apply bounded_ask | intros r].
    apply (respects_bind log_bounded); [exact IH | intros d].
    apply (respects_ret log_bounded).
Qed.

Lemma bounded_broadcast_with (pause : M unit) (event : string) (data : payload) :
  respects log_bounded pause -> respects log_bounded (broadcast_with pause event data).
Proof.
  intros Hp. unfold broadcast_with.
  apply (respects_bind log_bounded);
    [apply (respects_emit log_bounded); intros st H; exact H | intros _].
  apply (respects_bind log_bounded); [apply (respects_gets log_bounded) | intros clients].
  apply (respects_bind log_bounded); [apply bounded_send_all, Hp | intros d].
  apply (respects_modify log_bounded). intros st H. exact H.
Qed.

(** After [add_log] the buffer is within its bound, whatever it held
    before, as long as the pause keeps it so. *)
Lemma bounded_add_log_with (pause : M unit) (msg lvl : string) (st : St) :
  respects log_bounded pause ->
  length (logs (automation_state (final (add_log_with pause msg lvl st)))) <= 200.
Proof.
  intros Hp. unfold add_log_with. rewrite run_ask_eq, run_update_state_eq.
  apply (bounded_broadcast_with pause "log" _ Hp). cbn. apply log_append_bound.
Qed.

Lemma bounded_suspend : respects log_bounded suspend.
Proof.
  intros st H. unfold suspend. rewrite run_ask_eq.
  destruct (stop_posted (world st) (clock st)).
  - rewrite final_then_ret.
    unfold stop_automation. rewrite run_update_state_eq, final_then_ret.
    apply bounded_add_log_with. apply (respects_ret log_bounded).
  - rewrite run_ret. exact H.
Qed.

Lemma bounded_add_log (msg lvl : string) : respects log_bounded (add_log msg lvl).
Proof. intros st _. apply bounded_add_log_with, bounded_suspend. Qed.

Lemma bounded_broadcast (event : string) (data : payload) :
  respects log_bounded (broadcast event data).
Proof. apply bounded_broadcast_with, bounded_suspend. Qed.

Lemma bounded_broadcast_state : respects log_bounded broadcast_state.
Proof.
  unfold broadcast_state.
  apply (respects_bind log_bounded); [apply (respects_read_state log_bounded) |].
  intros a. apply bounded_broadcast.
Qed.

Lemma last_log_append (buf : list LogEntry) (e : LogEntry) :
  last (log_append buf e) = Some e.
Proof.
  rewrite log_append_last_n. unfold last_n.
  rewrite length_app. cbn [length].
  rewrite drop_app_le by lia. apply last_snoc.
Qed.

Lemma broadcast_keeps_state_when_quiet (event : string) (data : payload) (st : St) :
  (forall t, stop_posted (world st) t = false) ->
  automation_state (final (broadcast event data st)) = automation_state st.
Proof.
  intros Hq. unfold broadcast, broadcast_with.
  rewrite run_bind_ok with (a := tt) by (rewrite run_emit; reflexivity).
  rewrite run_emit. cbn [res final events].
  rewrite run_gets_eq.
  rewrite run_bind_ok with (a := failed_sends (world st) (clock st) (connected_clients st))
    by (rewrite send_all_quiet by exact Hq; reflexivity).
  rewrite send_all_quiet by exact Hq. cbn [res final events].
  rewrite run_modify. cbn [res final events app on_clients automation_state].
  apply iter_tick_fields.
Qed.

(** X14.  The log buffer stays within its bound.  After [add_log] and
    after a stop request the buffer holds at most 200 entries, whatever
    it held before and whatever requests are served meanwhile, and so it
    does at the end of every run.  When no stop request is served while
    [add_log] broadcasts, the entry it made is the newest one of the
    buffer. *)
Theorem log_buffer_stays_bounded :
  (forall msg lvl st,
     length (logs (automation_state (final (add_log msg lvl st)))) <= 200) /\
  (forall st, length (logs (automation_state (final (stop_automation st)))) <= 200) /\
  (forall url start_row end_row st,
     length (logs (automation_state (final (run_automation url start_row end_row st))))
     <= 200) /\
  (forall msg lvl st,
     (forall t, stop_posted (world st) t = false) ->
     last (logs (automation_state (final (add_log msg lvl st)))) =
     Some {| time := now_hms (world st) (clock st); message := msg; level := lvl |}).
Proof.
  split; [| split; [| split]].
  - intros msg lvl st. apply bounded_add_log_with, bounded_suspend.
  - intros st. unfold stop_automation. rewrite run_update_state_eq, final_then_ret.
    apply bounded_add_log_with. apply (respects_ret log_bounded).
  - intros url start_row end_row st. unfold run_automation.
    rewrite final_seq by apply safe_update_state.
    rewrite final_seq by apply safe_add_log.
    rewrite final_seq by apply safe_broadcast_state.
    rewrite final_try_finally.
    set (s := final (try_except _ _ _)). clearbody s.
    unfold run_finally. rewrite run_update_state_eq.
    rewrite final_seq by apply safe_add_log.
    match goal with |- length (logs (automation_state (final (?m ?s')))) <= 200 =>
      assert (Hr : respects log_bounded m); [| apply Hr]
    end.
    + apply (respects_bind log_bounded); [apply (respects_read_state log_bounded) |].
      intros a. apply (respects_bind log_bounded); [apply bounded_add_log | intros _].
      apply (respects_bind log_bounded); [apply bounded_broadcast_state | intros _].
      apply (respects_bind log_bounded); [apply (respects_read_state log_bounded) |].
      intros a'. apply bounded_broadcast.
    + apply bounded_add_log_with, bounded_suspend.
  - intros msg lvl st Hq. unfold add_log, add_log_with.
    rewrite run_ask_eq, run_update_state_eq.
    fold (broadcast "log"
            (PLog {| time := now_hms (world st) (clock st); message := msg; level := lvl |})).
    rewrite broadcast_keeps_state_when_quiet by exact Hq.
    cbn [automation_state on_state tick with_logs logs]. apply last_log_append.
Qed.
